(** * Liga Kampung score card: the storage layer of [streamlit_app.py]

    A shallow embedding of [connect_db], [initialize_data], [load_data] and
    [update_data], together with the parts of SQLite, of the [sqlite3] driver
    and of pandas they drive: one table [score_card] with an
    [INTEGER PRIMARY KEY AUTOINCREMENT] column, the three parameterised
    statements of [update_data], Python's implicit transaction around them,
    and the frame that [pd.DataFrame] builds from the fetched rows.

    Modelling conventions.
    - A Python [dict] with string keys is a [gmap string value]; the ordered
      [edited_rows] dictionary is an association list, since the order of
      iteration decides which exception is raised first.
    - A cell holds SQL [NULL] (Python [None]), an integer, a float (an IEEE
      754 double, as [SpecFloat] specifies it) or a text.
    - [pd.DataFrame] infers one dtype per column: a column of integers in
      which a [NULL] or a float occurs becomes [float64], with [NULL] as NaN
      and every integer as the nearest double.
    - The driver binds NaN as [NULL], and SQLite stores a whole float bound
      to an [INTEGER] column as an integer.
    - Exceptions are values of [exn]; a function that may raise returns a
      [result].  Code that talks to the connection lives in the monad [M],
      whose state is the connection.

    Bounds of the model.  Integers are unbounded: the driver's
    [OverflowError] for a Python integer outside the signed 64-bit range and
    the failure of [AUTOINCREMENT] once the largest rowid has been handed out
    are not modelled.  Nor are SQLite's conversions between texts and numbers
    (a text bound to an [INTEGER] column or compared with [id], a number
    bound to a [TEXT] column).  The predicates [fits] and [in_bounds] below
    describe the inputs on which none of this happens; a statement that
    takes [in_bounds] as a hypothesis is meant of those inputs. *)

From Stdlib Require Import SpecFloat.
From stdpp Require Import base numbers strings gmap list sorting.

Open Scope string_scope.
Open Scope list_scope.
Open Scope Z_scope.

(** ** Floats *)

(** Python's [float]. *)
Abbreviation float := spec_float.

#[global] Instance float_eq_dec : EqDecision float.
Proof. solve_decision. Defined.

Definition nan : float := S754_nan.

(** The double nearest to an integer, ties to even: what [float(z)] gives
    and what pandas stores when a column of integers becomes [float64]. *)
Definition float_of_int (z : Z) : float := binary_normalize 53 1024 z 0 false.

(** The integer that a float is equal to, when it is a whole number. *)
Definition int_of_float (f : float) : option Z :=
  match f with
  | S754_zero _ => Some 0
  | S754_finite s m e =>
      let magnitude :=
        if decide (0 ≤ e) then Some (Z.pos m * 2 ^ e)
        else if decide (Z.pos m mod 2 ^ (- e) = 0)
             then Some (Z.pos m / 2 ^ (- e))
             else None in
      (λ z, if s then - z else z) <$> magnitude
  | _ => None
  end.

(** ** Values, records and data frames *)

Inductive value : Type :=
| VNull
| VInt (z : Z)
| VFloat (f : float)
| VText (s : string).

#[global] Instance value_eq_dec : EqDecision value.
Proof. solve_decision. Defined.

Abbreviation dict := (gmap string value).

(** One row of [score_card].  [id] is the rowid: an integer, never [NULL]. *)
Record row : Type := Row {
  id : Z;
  contestant_name : value;
  contestant_id : value;
  total_tops : value;
  total_penalty : value;
  description : value
}.

#[global] Instance row_eq_dec : EqDecision row.
Proof. solve_decision. Defined.

(** The column list given to [pd.DataFrame] in [load_data]. *)
Definition columns : list string :=
  ["id"; "contestant_name"; "contestant_id"; "total_tops"; "total_penalty";
   "description"].

(** A row as [fetchall] returns it for [SELECT *]. *)
Definition fetch_tuple (r : row) : list value :=
  [VInt (id r); contestant_name r; contestant_id r; total_tops r;
   total_penalty r; description r].

(** The frame built by [load_data]: the six columns above over a default
    [RangeIndex], so that labels and positions coincide. *)
Abbreviation DataFrame := (list row).

(** [df.iloc[i].to_dict()] for the row found at position [i].  The frame of
    the application has a column of texts or [None]s, so the row is a Series
    of Python objects and every cell comes out as the frame holds it. *)
Definition to_dict (r : row) : dict := list_to_map (zip columns (fetch_tuple r)).

(** ** The frame that [pd.DataFrame] builds *)

(** The dtypes pandas chooses among for a column of fetched values. *)
Inductive dtype : Type := Int64 | Float64 | Object.

Definition is_null (v : value) : bool :=
  match v with VNull => true | _ => false end.

Definition is_int (v : value) : bool :=
  match v with VInt _ => true | _ => false end.

Definition is_float (v : value) : bool :=
  match v with VFloat _ => true | _ => false end.

Definition is_text (v : value) : bool :=
  match v with VText _ => true | _ => false end.

(** The inference: a text makes the column [object]; otherwise a float, or
    an integer next to a [None], makes it [float64]; integers alone give
    [int64]; a column of [None]s, or an empty one, stays [object]. *)
Definition infer_dtype (col : list value) : dtype :=
  if existsb is_text col then Object
  else if existsb is_float col then Float64
  else if existsb is_int col then
         if existsb is_null col then Float64 else Int64
  else Object.

(** The cell of a column of the given dtype. *)
Definition astype (d : dtype) (v : value) : value :=
  match d, v with
  | Float64, VNull => VFloat nan
  | Float64, VInt z => VFloat (float_of_int z)
  | _, _ => v
  end.

(** [pd.DataFrame(data, columns=[...])].  The [id] column holds integers
    only and stays [int64]. *)
Definition pd_DataFrame (data : list row) : DataFrame :=
  let name := infer_dtype (contestant_name <$> data) in
  let cid := infer_dtype (contestant_id <$> data) in
  let tops := infer_dtype (total_tops <$> data) in
  let penalty := infer_dtype (total_penalty <$> data) in
  let descr := infer_dtype (description <$> data) in
  (λ r, Row (id r)
            (astype name (contestant_name r))
            (astype cid (contestant_id r))
            (astype tops (total_tops r))
            (astype penalty (total_penalty r))
            (astype descr (description r))) <$> data.

(** ** Exceptions and results *)

Inductive exn : Type :=
| IndexError                  (* [df.iloc[i]]: positional indexer out of bounds *)
| KeyError (label : Z)        (* [df.loc[i, "id"]]: label not in the index *)
| ProgrammingError (name : string)
                              (* sqlite3: no value supplied for [:name] *)
| IntegrityError              (* sqlite3: UNIQUE constraint failed, datatype mismatch *)
| OperationalError.           (* sqlite3: no such table: score_card *)

#[global] Instance exn_eq_dec : EqDecision exn.
Proof. solve_decision. Defined.

(** The two families the callers can tell apart: Python's [LookupError]
    (raised by pandas indexing) and [sqlite3.Error] (raised by the driver). *)
Definition is_LookupError (e : exn) : bool :=
  match e with
  | IndexError | KeyError _ => true
  | _ => false
  end.

Definition is_sqlite3_Error (e : exn) : bool :=
  match e with
  | ProgrammingError _ | IntegrityError | OperationalError => true
  | _ => false
  end.

Inductive result (A : Type) : Type :=
| Ok (a : A)
| Raise (e : exn).
Arguments Ok {A} a.
Arguments Raise {A} e.

Definition rbind {A B} (x : result A) (k : A → result B) : result B :=
  match x with
  | Ok a => k a
  | Raise e => Raise e
  end.

Declare Scope result_scope.
Delimit Scope result_scope with result.
Notation "'try' x <- e1 ; e2" := (rbind e1 (λ x, e2))
  (at level 100, x name, e1 at next level, e2 at level 200,
   right associativity) : result_scope.

(** ** The table and the SQL statements run against it *)

(** [sqlite_sequence] is the table's entry in the system table of that name:
    the largest rowid the table has ever held, kept by [AUTOINCREMENT]. *)
Record table : Type := Table {
  rows : list row;
  sqlite_sequence : Z
}.

(** A database either has no [score_card] table yet or holds one. *)
Definition database : Type := option table.

(** What is passed as the parameters of one statement: a plain [dict], or a
    [defaultdict(lambda: None, d)]. *)
Inductive mapping : Type :=
| PlainDict (d : dict)
| DefaultDict (d : dict).

(** The value SQLite receives for a Python value: NaN is bound as [NULL]. *)
Definition sqlite3_bind (v : value) : value :=
  match v with
  | VFloat S754_nan => VNull
  | _ => v
  end.

(** Binding the named parameter [:name].  A plain dictionary without the key
    makes the driver raise; a [defaultdict] answers with its default. *)
Definition param (m : mapping) (name : string) : result value :=
  match m with
  | PlainDict d =>
      match d !! name with
      | Some v => Ok (sqlite3_bind v)
      | None => Raise (ProgrammingError name)
      end
  | DefaultDict d => Ok (sqlite3_bind (default VNull (d !! name)))
  end.

(** The affinity of an [INTEGER] column, and of a rowid: a float that is a
    whole number strictly between the smallest and the largest 64-bit
    integer becomes that integer; any other float stays. *)
Definition integer_affinity (v : value) : value :=
  match v with
  | VFloat f =>
      match int_of_float f with
      | Some z => if decide (- 2 ^ 63 < z < 2 ^ 63 - 1) then VInt z else v
      | None => v
      end
  | _ => v
  end.

(** [WHERE id = :id].  A comparison with [NULL] is never true; a float is
    compared as the integer it equals, if any. *)
Definition where_id (idv : value) (r : row) : Prop :=
  match idv with
  | VInt k => id r = k
  | VFloat f => integer_affinity (VFloat f) = VInt (id r)
  | _ => False
  end.

#[global] Instance where_id_dec idv r : Decision (where_id idv r).
Proof. destruct idv; simpl; apply _. Defined.

(** [UPDATE score_card SET contestant_name = :contestant_name, ...
     WHERE id = :id] *)
Definition sql_update (m : mapping) (t : table) : result table :=
  (try name <- param m "contestant_name";
   try cid <- param m "contestant_id";
   try tops <- param m "total_tops";
   try penalty <- param m "total_penalty";
   try descr <- param m "description";
   try idv <- param m "id";
   Ok {| rows := (λ r, if decide (where_id idv r)
                       then Row (id r) name (integer_affinity cid)
                              (integer_affinity tops)
                              (integer_affinity penalty) descr
                       else r) <$> rows t;
         sqlite_sequence := sqlite_sequence t |})%result.

(** Rows are kept in rowid order, the order in which [SELECT *] scans them. *)
Fixpoint insert_by_rowid (r : row) (rs : list row) : list row :=
  match rs with
  | [] => [r]
  | r' :: rs' =>
      if decide (id r < id r') then r :: rs else r' :: insert_by_rowid r rs'
  end.

(** The rowid chosen for a [NULL] id: one more than both the largest rowid
    in the table and the largest rowid ever recorded in [sqlite_sequence]. *)
Definition new_rowid (t : table) : Z :=
  Z.max (match id <$> rows t with
         | [] => 1
         | k :: ks => foldr Z.max k ks + 1
         end)
        (sqlite_sequence t + 1).

(** A [NULL] id asks for a new rowid; an id that is, or as a float equals,
    an integer is taken as given and must be free; anything else is a
    datatype mismatch. *)
Definition insert_values (idv name cid tops penalty descr : value) (t : table)
  : result table :=
  let r k := Row k name (integer_affinity cid) (integer_affinity tops)
               (integer_affinity penalty) descr in
  match integer_affinity idv with
  | VNull =>
      let k := new_rowid t in
      Ok {| rows := insert_by_rowid (r k) (rows t);
            sqlite_sequence := k |}
  | VInt k =>
      if decide (k ∈ id <$> rows t) then Raise IntegrityError
      else Ok {| rows := insert_by_rowid (r k) (rows t);
                 sqlite_sequence := Z.max (sqlite_sequence t) k |}
  | _ => Raise IntegrityError
  end.

(** [INSERT INTO score_card (id, contestant_name, ...) VALUES (:id, ...)] *)
Definition sql_insert (m : mapping) (t : table) : result table :=
  (try idv <- param m "id";
   try name <- param m "contestant_name";
   try cid <- param m "contestant_id";
   try tops <- param m "total_tops";
   try penalty <- param m "total_penalty";
   try descr <- param m "description";
   insert_values idv name cid tops penalty descr t)%result.

(** [DELETE FROM score_card WHERE id = :id] *)
Definition sql_delete (m : mapping) (t : table) : result table :=
  (try idv <- param m "id";
   Ok {| rows := filter (λ r, ¬ where_id idv r) (rows t);
         sqlite_sequence := sqlite_sequence t |})%result.

(** ** The connection and Python's implicit transactions *)

(** [durable] is what the database file holds, i.e. what every other
    connection sees.  [txn] is the working copy of the transaction that the
    driver opens before the first data-changing statement and that stays open
    until [commit]. *)
Record connection : Type := Conn {
  durable : database;
  txn : option database
}.

(** What a statement run on this connection reads. *)
Definition view (c : connection) : database := default (durable c) (txn c).

Definition M (A : Type) : Type := connection → result A * connection.

Definition ret {A} (a : A) : M A := λ c, (Ok a, c).

Definition bind {A B} (m : M A) (k : A → M B) : M B :=
  λ c, match m c with
       | (Ok a, c') => k a c'
       | (Raise e, c') => (Raise e, c')
       end.

Definition lift {A} (x : result A) : M A := λ c, (x, c).

Declare Scope conn_scope.
Delimit Scope conn_scope with conn.
Notation "'do' x <- m1 ; m2" := (bind m1 (λ x, m2))
  (at level 100, x name, m1 at next level, m2 at level 200,
   right associativity) : conn_scope.
Notation "m1 ;; m2" := (bind m1 (λ _, m2))
  (at level 100, m2 at level 200, right associativity) : conn_scope.

(** [cursor.execute] of one data-changing statement: prepare it (which fails
    when the table is missing), open a transaction if none is open, run it.
    A statement that fails leaves no effect of its own. *)
Definition execute (stmt : table → result table) : M unit :=
  λ c, match view c with
       | None => (Raise OperationalError, c)
       | Some t =>
           match stmt t with
           | Ok t' => (Ok tt, Conn (durable c) (Some (Some t')))
           | Raise e => (Raise e, Conn (durable c) (Some (Some t)))
           end
       end.

(** The loop of [cursor.executemany]: parameter sets are drawn one at a time
    from an iterable, so an element that raises (a generator expression)
    stops the loop after the earlier elements have been run. *)
Fixpoint run_many (stmt : mapping → table → result table)
    (params : list (result mapping)) (t : table) : result unit * table :=
  match params with
  | [] => (Ok tt, t)
  | Raise e :: _ => (Raise e, t)
  | Ok m :: params' =>
      match stmt m t with
      | Ok t' => run_many stmt params' t'
      | Raise e => (Raise e, t)
      end
  end.

Definition executemany (stmt : mapping → table → result table)
    (params : list (result mapping)) : M unit :=
  λ c, match view c with
       | None => (Raise OperationalError, c)
       | Some t =>
           let '(r, t') := run_many stmt params t in
           (r, Conn (durable c) (Some (Some t')))
       end.

(** [conn.commit()] *)
Definition commit : M unit := λ c, (Ok tt, Conn (view c) None).

(** [CREATE TABLE IF NOT EXISTS score_card (...)].  The driver opens no
    transaction for it: outside a transaction it is durable at once. *)
Definition create_table_if_not_exists : M unit :=
  λ c, let ensure (d : database) : database :=
         match d with
         | None => Some (Table [] 0)
         | Some t => Some t
         end in
       match txn c with
       | None => (Ok tt, Conn (ensure (durable c)) None)
       | Some w => (Ok tt, Conn (durable c) (Some (ensure w)))
       end.

(** [SELECT * FROM score_card] followed by [fetchall]. *)
Definition select_all : M (list row) :=
  λ c, match view c with
       | None => (Raise OperationalError, c)
       | Some t => (Ok (rows t), c)
       end.

(** ** [connect_db] *)

(** The file [scorecard.db]: absent, or present with a database in it. *)
Definition file_system : Type := option database.

(** [sqlite3.connect] creates the file, holding an empty database, when it
    is absent.  Returns the file system afterwards, the connection and
    [db_was_just_created]. *)
Definition connect_db (fs : file_system) : file_system * connection * bool :=
  let db_already_exists := bool_decide (is_Some fs) in
  let conn := Conn (default None fs) None in
  let db_was_just_created := negb db_already_exists in
  (Some (durable conn), conn, db_was_just_created).

(** ** [initialize_data] *)

(** The [VALUES] list: name and contestant id; the statement gives every seed
    [0] tops, [0] penalties and the empty description. *)
Definition initial_participants : list (string * Z) :=
  [("Azrai", 2501); ("Fais", 2502); ("Avish", 2503); ("Clarence", 2504);
   ("Shah", 2505); ("Shakel", 2506); ("Shaa", 2507); ("Joe", 2508);
   ("Meng", 2509); ("Jien", 2510); ("Paan", 2511); ("Fatin", 2512);
   ("Perong", 2513); ("Oliver", 2514)].

(** [INSERT INTO score_card (contestant_name, contestant_id, total_tops,
    total_penalty, description) VALUES ...]: [id] is not listed, hence
    [NULL]. *)
Fixpoint sql_insert_participants (ps : list (string * Z)) (t : table)
  : result table :=
  match ps with
  | [] => Ok t
  | (name, cid) :: ps' =>
      (try t' <- insert_values VNull (VText name) (VInt cid) (VInt 0) (VInt 0)
                   (VText "") t;
       sql_insert_participants ps' t')%result
  end.

Definition initialize_data (conn : connection) : result unit * connection :=
  (create_table_if_not_exists ;;
   execute (sql_insert_participants initial_participants) ;;
   commit)%conn conn.

(** ** [load_data] *)

(** The bare [except:] turns every failure of the query into [None]. *)
Definition load_data (conn : connection) : option DataFrame :=
  match select_all conn with
  | (Ok data, _) => Some (pd_DataFrame data)
  | (Raise _, _) => None
  end.

(** ** [update_data] *)

(** The value of the data editor's widget state. *)
Record Changes : Type := {
  edited_rows : list (Z * dict);
  added_rows : list dict;
  deleted_rows : list Z
}.

(** [df.iloc[i]]: a position, counted from the end when negative. *)
Definition iloc (df : DataFrame) (i : Z) : result row :=
  let n := Z.of_nat (length df) in
  let j := if decide (i < 0) then n + i else i in
  if decide (0 ≤ j < n)
  then match df !! Z.to_nat j with
       | Some r => Ok r
       | None => Raise IndexError
       end
  else Raise IndexError.

(** [int(df.loc[i, "id"])]: a label of the [RangeIndex]. *)
Definition loc_id (df : DataFrame) (i : Z) : result Z :=
  if decide (0 ≤ i)
  then match df !! Z.to_nat i with
       | Some r => Ok (id r)
       | None => Raise (KeyError i)
       end
  else Raise (KeyError i).

(** The [for i, delta in deltas.items()] loop building [rows]. *)
Fixpoint merge_rows (df : DataFrame) (deltas : list (Z * dict))
  : result (list dict) :=
  match deltas with
  | [] => Ok []
  | (i, delta) :: deltas' =>
      (try r <- iloc df i;
       let row_dict := delta ∪ to_dict r in
       try rows <- merge_rows df deltas';
       Ok (row_dict :: rows))%result
  end.

(** The generator handed to the [INSERT]. *)
Definition insert_params (added : list dict) : list (result mapping) :=
  (λ row, Ok (DefaultDict row)) <$> added.

(** The generator handed to the [DELETE]. *)
Definition delete_params (df : DataFrame) (deleted : list Z)
  : list (result mapping) :=
  (λ i, try k <- loc_id df i; Ok (PlainDict {[ "id" := VInt k ]}))%result
    <$> deleted.

(** Python's truth value of a list or dictionary. *)
Definition truthy {A} (l : list A) : bool :=
  match l with
  | [] => false
  | _ => true
  end.

(** [st_session_state_score_card] is [st.session_state.score_card], which
    the function reads for the deltas instead of its argument. *)
Definition update_data (st_session_state_score_card : Changes)
    (conn : connection) (df : DataFrame) (changes : Changes)
  : result unit * connection :=
  ((if truthy (edited_rows changes) then
      let deltas := edited_rows st_session_state_score_card in
      do rows <- lift (merge_rows df deltas);
      executemany sql_update ((λ d, Ok (PlainDict d)) <$> rows)
    else ret tt) ;;
   (if truthy (added_rows changes) then
      executemany sql_insert (insert_params (added_rows changes))
    else ret tt) ;;
   (if truthy (deleted_rows changes) then
      executemany sql_delete (delete_params df (deleted_rows changes))
    else ret tt) ;;
   commit)%conn conn.

(** ** The script: connect, seed a new file, load, and the commit button *)

(** The button passes [st.session_state.score_card] as [changes]. *)
Definition on_click (conn : connection) (df : DataFrame) (score_card : Changes)
  : result unit * connection :=
  update_data score_card conn df score_card.

(** Lines "Connect to database" to "Initialize data": what one run of the
    script does to the file before it loads the table. *)
Definition bootstrap (fs : file_system) : file_system * connection :=
  let '(fs', conn, db_was_just_created) := connect_db fs in
  if db_was_just_created then
    let '(_, conn') := initialize_data conn in (Some (durable conn'), conn')
  else (fs', conn).

(** * Auxiliary definitions used by the statements below *)

(** A computation on the connection that leaves the file as it is. *)
Definition keeps_durable {A} (m : M A) : Prop :=
  ∀ c r c', m c = (r, c') → durable c' = durable c.

(** The table read through the connection, if there is one, has no two
    rows with the same id. *)
Definition primary_key (c : connection) : Prop :=
  ∀ t, view c = Some t → NoDup (id <$> rows t).

(** A computation on the connection that maintains the primary key. *)
Definition keeps_primary_key {A} (m : M A) : Prop :=
  ∀ c r c', primary_key c → m c = (r, c') → primary_key c'.

(** The columns other than [id]. *)
Definition data_columns : list string :=
  ["contestant_name"; "contestant_id"; "total_tops"; "total_penalty";
   "description"].


(** The cell of a row in the column named [f]. *)
Definition cell (f : string) (r : row) : value := default VNull (to_dict r !! f).

(** The record SQLite stores when the cells of [r] are bound to the five
    data columns of a row. *)
Definition stored (r : row) : row :=
  Row (id r)
      (sqlite3_bind (contestant_name r))
      (integer_affinity (sqlite3_bind (contestant_id r)))
      (integer_affinity (sqlite3_bind (total_tops r)))
      (integer_affinity (sqlite3_bind (total_penalty r)))
      (sqlite3_bind (description r)).

(** The three [if] blocks of [update_data], and their sequence before the
    [commit]. *)
Definition edits_block (ss : Changes) (df : DataFrame) (changes : Changes)
  : M unit :=
  (if truthy (edited_rows changes) then
     do rows <- lift (merge_rows df (edited_rows ss));
     executemany sql_update ((λ d, Ok (PlainDict d)) <$> rows)
   else ret tt)%conn.

Definition inserts_block (changes : Changes) : M unit :=
  if truthy (added_rows changes) then
    executemany sql_insert (insert_params (added_rows changes))
  else ret tt.

Definition deletes_block (df : DataFrame) (changes : Changes) : M unit :=
  if truthy (deleted_rows changes) then
    executemany sql_delete (delete_params df (deleted_rows changes))
  else ret tt.

Definition run_statements (ss : Changes) (df : DataFrame) (changes : Changes)
  : M unit :=
  (edits_block ss df changes ;; inserts_block changes ;;
   deletes_block df changes)%conn.

(** The batch of a data editor nobody touched. *)
Definition no_changes : Changes :=
  {| edited_rows := []; added_rows := []; deleted_rows := [] |}.

(** Sample data: the contestant of the spec's edit example. *)
Definition azrai : row :=
  Row 5 (VText "Azrai") (VInt 2501) (VInt 3) (VInt 1) (VText "").

(** A connection, fresh from [connect_db], to a file that holds [rs]. *)
Definition fresh_conn (rs : list row) (n : Z) : connection :=
  Conn (Some (Table rs n)) None.

(** A seed record as the spec describes it: name and contestant id as
    listed, no tops, no penalties, empty description. *)
Definition seed_record (k : Z) (p : string * Z) : row :=
  Row k (VText p.1) (VInt p.2) (VInt 0) (VInt 0) (VText "").

(** The spec's overlay of a partial record onto a snapshot row: a field
    present in the partial wins, an absent field keeps the row's value, and
    [id] is the row's. *)
Definition overlay (r : row) (delta : dict) : row :=
  Row (id r)
      (default (contestant_name r) (delta !! "contestant_name"))
      (default (contestant_id r) (delta !! "contestant_id"))
      (default (total_tops r) (delta !! "total_tops"))
      (default (total_penalty r) (delta !! "total_penalty"))
      (default (description r) (delta !! "description")).

(** The row an insert stores for a partial record: a field present in the
    partial has its value, an absent field is [NULL]. *)
Definition inserted_row (k : Z) (d : dict) : row :=
  Row k
      (default VNull (d !! "contestant_name"))
      (default VNull (d !! "contestant_id"))
      (default VNull (d !! "total_tops"))
      (default VNull (d !! "total_penalty"))
      (default VNull (d !! "description")).

(** A row under another id. *)
Definition with_id (k : Z) (r : row) : row :=
  Row k (contestant_name r) (contestant_id r) (total_tops r) (total_penalty r)
    (description r).

(** What the [UPDATE] run with the dictionary [d] leaves in place of the
    row [r']: the values of [d] as SQLite stores them when [d] is keyed to
    the row, the row itself otherwise. *)
Definition updated (d : dict) (r' : row) : row :=
  if decide (where_id (sqlite3_bind (default VNull (d !! "id"))) r')
  then stored (inserted_row (id r') d)
  else r'.

(** What the updates of a list of dictionaries, run in order, leave of a
    list of rows. *)
Definition updates (dicts : list dict) (rs : list row) : list row :=
  foldl (λ rs d, updated d <$> rs) rs dicts.

(** The id that a dictionary's update, or delete, is keyed to. *)
Definition target (d : dict) : option Z :=
  match integer_affinity (sqlite3_bind (default VNull (d !! "id"))) with
  | VInt k => Some k
  | _ => None
  end.

(** A record that leaves the id to SQLite: [id] is absent, [None] or
    NaN. *)
Definition no_id (d : dict) : Prop :=
  sqlite3_bind (default VNull (d !! "id")) = VNull.

(** The rows stored for a batch of such records, under consecutive ids from
    [k] on. *)
Definition inserted (k : Z) (added : list dict) : list row :=
  zip_with (λ k d, stored (inserted_row k d))
    (seqZ k (Z.of_nat (length added))) added.

(** The value of [sqlite_sequence] after the inserts of such a batch. *)
Definition next_sequence (t : table) (added : list dict) : Z :=
  match added with
  | [] => sqlite_sequence t
  | _ => new_rowid t + Z.of_nat (length added) - 1
  end.

(** More sample data: a second contestant, and an edit whose partial record
    names an id. *)
Definition joe : row :=
  Row 7 (VText "Joe") (VInt 2508) (VInt 0) (VInt 0) (VText "").

Definition edit_naming_id : Changes :=
  {| edited_rows := [(0, {[ "id" := VInt 7; "total_tops" := VInt 4 ]})];
     added_rows := [];
     deleted_rows := [] |}.

(** A position that [iloc] accepts: [-n ≤ i < n] for a frame of [n] rows. *)
Definition in_iloc_range (df : DataFrame) (i : Z) : Prop :=
  - Z.of_nat (length df) ≤ i < Z.of_nat (length df).

(** A position present in the snapshot: [0 ≤ i < n]. *)
Definition in_snapshot (df : DataFrame) (i : Z) : Prop :=
  0 ≤ i < Z.of_nat (length df).

(** Batches with a delete position, 7, that the one-row snapshot lacks. *)
Definition stale_delete_after_failing_insert : Changes :=
  {| edited_rows := [];
     added_rows := [ {[ "id" := VInt 5 ]} ];
     deleted_rows := [7] |}.

Definition stale_delete_only : Changes :=
  {| edited_rows := []; added_rows := []; deleted_rows := [7] |}.

(** A batch with an edit position, -1, that is no index of the snapshot. *)
Definition edit_at_minus_one : Changes :=
  {| edited_rows := [(-1, {[ "total_tops" := VInt 4 ]})];
     added_rows := [];
     deleted_rows := [] |}.

(** ** The table a batch is meant to leave behind *)


(** The partial record the batch holds for position [i], if any. *)
Definition edit_at (edits : list (Z * dict)) (i : Z) : option dict :=
  (list_to_map edits : gmap Z dict) !! i.



(** A batch as the data editor produces it over the snapshot [df]: edits
    keyed by distinct positions of the snapshot, with partial records that
    leave [id] out; inserted records without [id]; delete positions of the
    snapshot; no position both edited and deleted. *)
Record well_formed (df : DataFrame) (b : Changes) : Prop := {
  wf_edit_keys : NoDup (edited_rows b).*1;
  wf_edit_positions : ∀ p, p ∈ edited_rows b → in_snapshot df p.1;
  wf_edit_no_id : ∀ p, p ∈ edited_rows b → p.2 !! "id" = None;
  wf_insert_no_id : ∀ d, d ∈ added_rows b → d !! "id" = None;
  wf_delete_positions : ∀ i, i ∈ deleted_rows b → in_snapshot df i;
  wf_disjoint : ∀ p, p ∈ edited_rows b → p.1 ∉ deleted_rows b
}.

(** The ids that the delete positions resolve to. *)
Definition deleted_ids (df : DataFrame) (deleted : list Z) : list Z :=
  omap (λ i, match loc_id df i with
             | Ok k => Some k
             | Raise _ => None
             end) deleted.

(** The table a commit leaves in the file when its statements all run: the
    rows as the updates of the staged dictionaries leave them, followed by
    the inserted rows, without the rows whose id is that of a deleted
    snapshot position. *)
Definition committed (df : DataFrame) (b : Changes) (dicts : list dict)
    (t : table) : table :=
  Table (filter (λ r, id r ∉ deleted_ids df (deleted_rows b))
           (updates dicts (rows t) ++ inserted (new_rowid t) (added_rows b)))
    (next_sequence t (added_rows b)).

(** What SQLite stores for a value bound to the column [f]. *)
Definition stored_as (f : string) (v : value) : value :=
  if decide (f ∈ ["contestant_id"; "total_tops"; "total_penalty"])
  then integer_affinity (sqlite3_bind v)
  else sqlite3_bind v.

(** ** The bounds of the model *)

(** The integers SQLite holds. *)
Definition int64 (z : Z) : Prop := - 2 ^ 63 ≤ z < 2 ^ 63.

#[global] Instance int64_dec z : Decision (int64 z).
Proof. unfold int64. apply _. Defined.

#[global] Instance from_option_True_dec {A} (P : A → Prop)
  `{∀ a, Decision (P a)} (o : option A) : Decision (from_option P True o).
Proof. destruct o; simpl; apply _. Defined.

(** The columns declared [INTEGER], the rowid among them, and those
    declared [TEXT]. *)
Definition integer_columns : list string :=
  ["id"; "contestant_id"; "total_tops"; "total_penalty"].

Definition text_columns : list string := ["contestant_name"; "description"].

(** A Python value that the driver binds to the column [f], and that SQLite
    stores there, as the model has it: [None]; for an [INTEGER] column an
    integer of the 64-bit range or a float; for a [TEXT] column a text. *)
Definition fits (f : string) (v : value) : Prop :=
  match v with
  | VNull => True
  | VInt z => f ∈ integer_columns ∧ int64 z
  | VFloat _ => f ∈ integer_columns
  | VText _ => f ∈ text_columns
  end.

#[global] Instance fits_dec f v : Decision (fits f v).
Proof. destruct v; simpl; apply _. Defined.

(** A dictionary whose values for the six columns fit them. *)
Definition fits_dict (d : dict) : Prop :=
  Forall (λ f, from_option (fits f) True (d !! f)) columns.

#[global] Instance fits_dict_dec d : Decision (fits_dict d).
Proof. unfold fits_dict. apply _. Defined.

Definition fits_row (r : row) : Prop := fits_dict (to_dict r).

#[global] Instance fits_row_dec r : Decision (fits_row r).
Proof. unfold fits_row. apply _. Defined.

(** A dictionary without floats: SQLite stores its values as they are
    bound. *)
Definition plain (d : dict) : Prop :=
  Forall (λ f, from_option (λ v, is_float v = false) True (d !! f)) columns.

#[global] Instance plain_dec d : Decision (plain d).
Proof. unfold plain. apply _. Defined.

(** [P] of the result, if there is one. *)
Definition if_Ok {A} (P : A → Prop) (x : result A) : Prop :=
  match x with
  | Ok a => P a
  | Raise _ => True
  end.

#[global] Instance if_Ok_dec {A} (P : A → Prop) `{∀ a, Decision (P a)} x :
  Decision (if_Ok P x).
Proof. destruct x; simpl; apply _. Defined.

(** The commits the model covers: every value that the statements bind
    fits its column, every id that the deletes bind is of the 64-bit range,
    and the rowids that the inserts can reach stay below the largest one, at
    which [AUTOINCREMENT] gives up. *)
Definition in_bounds (df : DataFrame) (b : Changes) (t : table) : Prop :=
  Forall (λ p, fits_dict p.2 ∧ if_Ok fits_row (iloc df p.1)) (edited_rows b) ∧
  Forall fits_dict (added_rows b) ∧
  Forall (λ i, if_Ok int64 (loc_id df i)) (deleted_rows b) ∧
  Forall (λ k, k + Z.of_nat (length (added_rows b)) < 2 ^ 63)
    ((new_rowid t - 1) :: omap target (added_rows b)).

#[global] Instance in_bounds_dec df b t : Decision (in_bounds df b t).
Proof. unfold in_bounds. apply _. Defined.

(** A batch that inserts one record and does nothing else. *)
Definition single_insert (d : dict) : Changes :=
  {| edited_rows := []; added_rows := [d]; deleted_rows := [] |}.


(** ** The commit button *)

(** [any(len(v) for v in st.session_state.score_card.values())]: the widget
    state holds the three collections, and a length is true when it is not
    zero. *)
Definition has_uncommitted_changes (score_card : Changes) : bool :=
  existsb (λ n, negb (n =? 0)%nat)
    [length (edited_rows score_card); length (added_rows score_card);
     length (deleted_rows score_card)].

(** [disabled=not has_uncommitted_changes] *)
Definition commit_button_disabled (score_card : Changes) : bool :=
  negb (has_uncommitted_changes score_card).

(** ** Invariants of the table *)

(** Rows are in strictly increasing id order, the order of a rowid scan. *)
Definition rowid_order (t : table) : Prop :=
  StronglySorted Z.lt (id <$> rows t).

(** No row has an id above the one recorded in [sqlite_sequence]. *)
Definition ids_within_sequence (t : table) : Prop :=
  ∀ r, r ∈ rows t → id r ≤ sqlite_sequence t.

(** From [t] to [t'] no id was handed out again: the recorded sequence did
    not go down, it still bounds every id, and every row of [t'] either has
    an id that [t] holds or an id above all that [t] ever held. *)
Definition no_id_reused (t t' : table) : Prop :=
  ids_within_sequence t' ∧
  sqlite_sequence t ≤ sqlite_sequence t' ∧
  ∀ r, r ∈ rows t' → id r ∈ id <$> rows t ∨ sqlite_sequence t < id r.

(** ** Why a commit raises *)

(** What in the input of the commit accounts for the exception [e]. *)
Definition raised_because (conn : connection) (df : DataFrame) (b : Changes)
    (e : exn) : Prop :=
  match e with
  | IndexError => ∃ p, p ∈ edited_rows b ∧ ¬ in_iloc_range df p.1
  | KeyError i => i ∈ deleted_rows b ∧ ¬ in_snapshot df i
  | IntegrityError => ∃ d, d ∈ added_rows b ∧ ¬ no_id d
  | OperationalError => view conn = None
  | ProgrammingError _ => False
  end.

(** ** Committing twice *)

(** A function on rows that keeps ids and treats the rows of one id alike:
    it leaves a row alone or sends every row of that id to the same row. *)
Definition by_id (F : row → row) : Prop :=
  ∀ r, id (F r) = id r ∧ (F r = r ∨ ∀ r', id r' = id r → F r' = F r).

(** ** The tables the application can reach *)

(** The two invariants of the table together. *)
Definition well_kept (t : table) : Prop :=
  rowid_order t ∧ ids_within_sequence t.

(** The connections the script can hold when it starts without a database
    file: the one of the first run, after seeding; one on which a commit was
    attempted, with any snapshot and batch and any outcome; one opened by a
    later run on the file as the earlier runs left it. *)
Inductive reachable : connection → Prop :=
| reachable_first_run : reachable (bootstrap None).2
| reachable_commit ss conn df changes r conn' :
    reachable conn →
    update_data ss conn df changes = (r, conn') →
    reachable conn'
| reachable_next_run conn :
    reachable conn → reachable (bootstrap (Some (durable conn))).2.

(** * Properties *)

(** ** Transactions: what reaches the file *)

Lemma keeps_durable_ret {A} (a : A) : keeps_durable (ret a).
Proof. intros c r c' [= <- <-]. done. Qed.

Lemma keeps_durable_lift {A} (x : result A) : keeps_durable (lift x).
Proof. intros c r c' [= <- <-]. done. Qed.

Lemma keeps_durable_bind {A B} (m : M A) (k : A → M B) :
  keeps_durable m → (∀ a, keeps_durable (k a)) → keeps_durable (bind m k).
Proof.
  intros Hm Hk c r c'. unfold bind.
  destruct (m c) as [[a|e] c1] eqn:E; intros H.
  - apply Hk in H. apply Hm in E. congruence.
  - injection H as <- <-. by apply Hm in E.
Qed.

Lemma keeps_durable_executemany stmt params :
  keeps_durable (executemany stmt params).
Proof.
  intros c r c'. unfold executemany.
  destruct (view c) as [t|]; [|by intros [= <- <-]].
  destruct (run_many stmt params t) as [r' t']. by intros [= <- <-].
Qed.

Lemma keeps_durable_execute stmt : keeps_durable (execute stmt).
Proof.
  intros c r c'. unfold execute.
  destruct (view c) as [t|]; [|by intros [= <- <-]].
  destruct (stmt t); by intros [= <- <-].
Qed.

Create HintDb durable.
#[local] Hint Resolve keeps_durable_ret keeps_durable_lift
  keeps_durable_executemany keeps_durable_execute : durable.

Lemma keeps_durable_if {A} (b : bool) (m1 m2 : M A) :
  keeps_durable m1 → keeps_durable m2 → keeps_durable (if b then m1 else m2).
Proof. by destruct b. Qed.

Lemma update_data_unfold ss c df changes :
  update_data ss c df changes =
  match run_statements ss df changes c with
  | (Ok _, c') => commit c'
  | (Raise e, c') => (Raise e, c')
  end.
Proof.
  unfold update_data, run_statements, edits_block, inserts_block, deletes_block,
    bind.
  destruct (if truthy (edited_rows changes) then _ else _) as [[[]|e1] c1]; [|done].
  destruct (if truthy (added_rows changes) then _ else _) as [[[]|e2] c2]; [|done].
  by destruct (if truthy (deleted_rows changes) then _ else _) as [[[]|e3] c3].
Qed.

Lemma keeps_durable_run_statements ss df changes :
  keeps_durable (run_statements ss df changes).
Proof.
  unfold run_statements, edits_block, inserts_block, deletes_block.
  repeat (apply keeps_durable_bind; [|intros _]);
    apply keeps_durable_if; eauto with durable.
  apply keeps_durable_bind; eauto with durable.
Qed.

Lemma run_statements_durable ss df changes c r c' :
  run_statements ss df changes c = (r, c') → durable c' = durable c.
Proof. apply keeps_durable_run_statements. Qed.

(** The [commit] is the only step that writes the file, and an exception
    skips it. *)
Lemma update_data_raise_keeps_file ss conn df changes e conn' :
  update_data ss conn df changes = (Raise e, conn') →
  durable conn' = durable conn.
Proof.
  rewrite update_data_unfold.
  destruct (run_statements ss df changes conn) as [[[]|e1] c1] eqn:E; [done|].
  intros [= _ <-]. by eapply run_statements_durable.
Qed.

(** C1. Applying a batch is all-or-nothing for the database file: when
    [update_data] raises, whatever statement failed, the file holds what it
    held before the call, so a new connection loads the table as it was
    before the batch; when it returns, every statement of the batch has run
    and the transaction that holds their effects is committed. *)
Theorem update_data_all_or_nothing ss conn df changes r conn' :
  update_data ss conn df changes = (r, conn') →
  (∀ e, r = Raise e →
     durable conn' = durable conn ∧
     load_data (Conn (durable conn') None) = load_data (Conn (durable conn) None)) ∧
  (r = Ok tt →
     ∃ c1, run_statements ss df changes conn = (Ok tt, c1) ∧
           conn' = Conn (view c1) None).
Proof.
  intros Hrun. split.
  - intros e ->. apply update_data_raise_keeps_file in Hrun. by rewrite Hrun.
  - intros ->. rewrite update_data_unfold in Hrun.
    destruct (run_statements ss df changes conn) as [[[]|e1] c1] eqn:E; [|done].
    injection Hrun as <-. by exists c1.
Qed.

(** An update that succeeds, then an insert that repeats an existing id:
    the insert raises, the update stays in the open transaction and the
    file is untouched. *)
Lemma update_data_all_or_nothing_witness :
  let batch := {| edited_rows := [(0, {[ "total_tops" := VInt 4 ]})];
                  added_rows := [ {[ "id" := VInt 5 ]} ];
                  deleted_rows := [] |} in
  let conn := fresh_conn [azrai] 5 in
  let conn' := Conn (durable conn)
                 (Some (Some (Table [Row 5 (VText "Azrai") (VInt 2501) (VInt 4)
                                       (VInt 1) (VText "")] 5))) in
  update_data batch conn [azrai] batch = (Raise IntegrityError, conn') ∧
  durable conn' = durable conn ∧
  load_data (Conn (durable conn') None) = load_data (Conn (durable conn) None).
Proof.
  intros batch conn conn'.
  assert (H : update_data batch conn [azrai] batch = (Raise IntegrityError, conn'))
    by reflexivity.
  split; [exact H|].
  exact (proj1 (update_data_all_or_nothing batch conn [azrai] batch _ _ H)
           IntegrityError eq_refl).
Defined.

(** No rollback is issued: after a failure the connection that ran the batch
    still reads the effects of the statements that succeeded. *)
Example update_data_leaves_transaction_open :
  let batch := {| edited_rows := [(0, {[ "total_tops" := VInt 4 ]})];
                  added_rows := [];
                  deleted_rows := [7] |} in
  let conn := fresh_conn [azrai] 5 in
  ∃ conn', update_data batch conn [azrai] batch = (Raise (KeyError 7), conn') ∧
           durable conn' = durable conn ∧
           load_data conn' ≠ load_data conn.
Proof.
  intros batch conn. eexists. split; [reflexivity|].
  split; [|discriminate].
  by apply (update_data_raise_keeps_file batch conn [azrai] batch (KeyError 7)).
Qed.

(** A statement keyed by an id that the live table no longer holds is not a
    failure: it changes no row, and the rest of the batch is committed.
    Here the snapshot still lists Joe, whom another writer has deleted. *)
Example update_of_missing_id_is_no_failure :
  let batch := {| edited_rows := [(0, {[ "total_tops" := VInt 4 ]});
                                  (1, {[ "total_tops" := VInt 9 ]})];
                  added_rows := [];
                  deleted_rows := [] |} in
  on_click (fresh_conn [azrai] 7) [azrai; joe] batch =
    (Ok tt, fresh_conn [Row 5 (VText "Azrai") (VInt 2501) (VInt 4) (VInt 1)
                          (VText "")] 7).
Proof. vm_compute. reflexivity. Qed.

(** C9, as stated, fails: the call commits, and a commit persists whatever
    the connection's open transaction holds.  A batch that raised at its
    stale delete has left its update in the transaction; the empty batch that
    follows on the same connection writes that update to the file. *)
Lemma empty_batch_commits_what_a_failed_batch_left :
  let batch := {| edited_rows := [(0, {[ "total_tops" := VInt 4 ]})];
                  added_rows := [];
                  deleted_rows := [7] |} in
  let conn := fresh_conn [azrai] 5 in
  let edited_azrai := Row 5 (VText "Azrai") (VInt 2501) (VInt 4) (VInt 1)
                        (VText "") in
  ∃ conn1 conn2,
    update_data batch conn [azrai] batch = (Raise (KeyError 7), conn1) ∧
    durable conn1 = Some (Table [azrai] 5) ∧
    update_data no_changes conn1 [azrai] no_changes = (Ok tt, conn2) ∧
    durable conn2 = Some (Table [edited_azrai] 5) ∧
    durable conn2 ≠ durable conn1.
Proof.
  intros batch conn edited_azrai. eexists _, _.
  split; [vm_compute; reflexivity|]. split; [reflexivity|].
  split; [vm_compute; reflexivity|]. split; [reflexivity|]. discriminate.
Qed.

(** C9, amended.  With an empty batch none of the three statements is run:
    the call is the [commit] alone.  It closes the connection's transaction
    and makes the file hold the table that the connection read before the
    call, so the table read through the connection is the same before and
    after; and on a connection without an open transaction (as [connect_db]
    and [load_data] leave it) nothing changes at all. *)
Theorem update_data_empty_batch ss conn df :
  run_statements ss df no_changes conn = (Ok tt, conn) ∧
  update_data ss conn df no_changes = commit conn ∧
  update_data ss conn df no_changes = (Ok tt, Conn (view conn) None) ∧
  view (update_data ss conn df no_changes).2 = view conn ∧
  (txn conn = None → update_data ss conn df no_changes = (Ok tt, conn)).
Proof.
  split_and!; try reflexivity.
  destruct conn as [d [w|]]; [discriminate|]. reflexivity.
Qed.

Lemma update_data_empty_batch_witness :
  let conn := fresh_conn [azrai] 5 in
  txn conn = None ∧
  update_data no_changes conn [azrai] no_changes = (Ok tt, conn) ∧
  load_data (update_data no_changes conn [azrai] no_changes).2 = Some [azrai].
Proof.
  intros conn. split; [reflexivity|].
  pose proof (update_data_empty_batch no_changes conn [azrai])
    as (_ & _ & _ & _ & H).
  rewrite (H eq_refl). split; reflexivity.
Defined.

(** ** Bootstrap and the Reader *)

Lemma bootstrap_existing_file (db : database) :
  bootstrap (Some db) = (Some db, Conn db None).
Proof. reflexivity. Qed.

(** C6. Bootstrapping without a database file creates the table and stores
    exactly the 14 seed records, with ids 1 to 14, no tops, no penalties and
    an empty description.  Bootstrapping when the file exists changes nothing
    and inserts nothing, whatever the file holds: a seeded table, an empty
    table, or no table at all.  In particular bootstrapping twice gives the
    same file as bootstrapping once. *)
Theorem bootstrap_seeds_new_file_only :
  (∃ t, bootstrap None = (Some (Some t), Conn (Some t) None) ∧
        length (rows t) = 14%nat ∧
        rows t = zip_with seed_record (seqZ 1 14) initial_participants ∧
        Forall (λ r, total_tops r = VInt 0 ∧ total_penalty r = VInt 0 ∧
                     description r = VText "") (rows t)) ∧
  (∀ db, bootstrap (Some db) = (Some db, Conn db None) ∧
         load_data (bootstrap (Some db)).2 =
           (λ t, pd_DataFrame (rows t)) <$> db) ∧
  (∀ n, bootstrap (Some (Some (Table [] n))) =
        (Some (Some (Table [] n)), Conn (Some (Table [] n)) None)) ∧
  (∀ fs, (bootstrap (bootstrap fs).1).1 = (bootstrap fs).1).
Proof.
  split_and!.
  - eexists. split; [vm_compute; reflexivity|].
    split; [reflexivity|]. split; [vm_compute; reflexivity|].
    repeat constructor.
  - intros db. rewrite bootstrap_existing_file. split; [done|]. by destruct db.
  - intros n. apply bootstrap_existing_file.
  - intros [db|]; [by rewrite !bootstrap_existing_file|vm_compute; reflexivity].
Qed.


(** *** The frame *)

Ltac in_columns :=
  unfold data_columns, columns; rewrite ?elem_of_cons; auto 10.


Lemma ids_pd_DataFrame (data : list row) : id <$> pd_DataFrame data = id <$> data.
Proof.
  unfold pd_DataFrame. rewrite <-list_fmap_compose. by apply list_fmap_ext.
Qed.









(** ** The statements, one parameter set at a time *)

Lemma run_many_app stmt (ps1 ps2 : list (result mapping)) (t : table) :
  run_many stmt (ps1 ++ ps2) t =
  match run_many stmt ps1 t with
  | (Ok _, t1) => run_many stmt ps2 t1
  | (Raise e, t1) => (Raise e, t1)
  end.
Proof.
  revert t. induction ps1 as [|[m|e] ps1 IH]; intros t; simpl; [done| |done].
  destruct (stmt m t); [apply IH|done].
Qed.

Lemma where_id_affinity (idv : value) (r : row) :
  where_id idv r ↔ integer_affinity idv = VInt (id r).
Proof. destruct idv; simpl; [done| |done..]. split; congruence. Qed.

Lemma executemany_run stmt params c t r t' :
  view c = Some t → run_many stmt params t = (r, t') →
  executemany stmt params c = (r, Conn (durable c) (Some (Some t'))).
Proof. intros Hv Hr. unfold executemany. by rewrite Hv, Hr. Qed.

Lemma lookup_merged (delta : dict) (r : row) (f : string) :
  (delta ∪ to_dict r) !! f =
  match delta !! f with
  | Some v => Some v
  | None => to_dict r !! f
  end.
Proof. rewrite lookup_union. by destruct (delta !! f), (to_dict r !! f). Qed.

Lemma param_merged (delta : dict) (r : row) (f : string) (v : value) :
  to_dict r !! f = Some v →
  param (PlainDict (delta ∪ to_dict r)) f =
  Ok (sqlite3_bind (default v (delta !! f))).
Proof.
  intros Hf. unfold param. rewrite lookup_merged, Hf.
  by destruct (delta !! f).
Qed.

Lemma default_merged (delta : dict) (r : row) (f : string) (v : value) :
  to_dict r !! f = Some v →
  default VNull ((delta ∪ to_dict r) !! f) = default v (delta !! f).
Proof. intros Hf. rewrite lookup_merged, Hf. by destruct (delta !! f). Qed.

(** The row that the update of a merged dictionary puts in place of the
    rows it is keyed to: the snapshot row with the partial record overlaid,
    as SQLite stores it. *)
Lemma updated_merged (delta : dict) (r r' : row) :
  updated (delta ∪ to_dict r) r' =
  if decide (where_id (sqlite3_bind (default (VInt (id r)) (delta !! "id"))) r')
  then with_id (id r') (stored (overlay r delta))
  else r'.
Proof.
  unfold updated.
  rewrite (default_merged _ _ "id" (VInt (id r))) by done.
  case_decide; [|done].
  unfold inserted_row, stored, overlay, with_id.
  cbn [id contestant_name contestant_id total_tops total_penalty description].
  rewrite (default_merged _ _ "contestant_name" (contestant_name r)) by done.
  rewrite (default_merged _ _ "contestant_id" (contestant_id r)) by done.
  rewrite (default_merged _ _ "total_tops" (total_tops r)) by done.
  rewrite (default_merged _ _ "total_penalty" (total_penalty r)) by done.
  by rewrite (default_merged _ _ "description" (description r)).
Qed.

(** The [UPDATE] run with a merged row never raises: all six parameters are
    there, since [to_dict] supplies every column. *)
Lemma sql_update_merged (delta : dict) (r : row) (t : table) :
  sql_update (PlainDict (delta ∪ to_dict r)) t =
  Ok {| rows := updated (delta ∪ to_dict r) <$> rows t;
        sqlite_sequence := sqlite_sequence t |}.
Proof.
  unfold sql_update.
  rewrite (param_merged _ _ "contestant_name" (contestant_name r)) by done.
  rewrite (param_merged _ _ "contestant_id" (contestant_id r)) by done.
  rewrite (param_merged _ _ "total_tops" (total_tops r)) by done.
  rewrite (param_merged _ _ "total_penalty" (total_penalty r)) by done.
  rewrite (param_merged _ _ "description" (description r)) by done.
  rewrite (param_merged _ _ "id" (VInt (id r))) by done.
  cbn [rbind]. do 2 f_equal. apply list_fmap_ext. intros _ r' _.
  rewrite updated_merged. by case_decide.
Qed.

Lemma sql_update_overlay (delta : dict) (r : row) (t : table) :
  delta !! "id" = None →
  sql_update (PlainDict (delta ∪ to_dict r)) t =
  Ok {| rows := (λ r', if decide (id r' = id r) then stored (overlay r delta)
                       else r')
                  <$> rows t;
        sqlite_sequence := sqlite_sequence t |}.
Proof.
  intros Hid. rewrite sql_update_merged. do 2 f_equal.
  apply list_fmap_ext. intros _ r' _. rewrite updated_merged, Hid. simpl.
  destruct (decide (id r' = id r)) as [->|]; [|done]. by destruct r.
Qed.

Lemma iloc_position (df : DataFrame) (i : Z) (r : row) :
  0 ≤ i → df !! Z.to_nat i = Some r → iloc df i = Ok r.
Proof.
  intros Hi Hr. unfold iloc. cbv zeta.
  pose proof (lookup_lt_Some _ _ _ Hr).
  rewrite (decide_False (P := i < 0)) by lia.
  rewrite decide_True by lia. by rewrite Hr.
Qed.

Lemma iloc_error (df : DataFrame) (i : Z) (e : exn) :
  iloc df i = Raise e → e = IndexError.
Proof. unfold iloc. cbv zeta. repeat case_match; congruence. Qed.

Lemma iloc_in_range (df : DataFrame) (i : Z) :
  - Z.of_nat (length df) ≤ i < Z.of_nat (length df) → ∃ r, iloc df i = Ok r.
Proof.
  intros Hi. unfold iloc. cbv zeta.
  set (j := if decide (i < 0) then _ else _).
  assert (0 ≤ j < Z.of_nat (length df)) as Hj by (unfold j; case_decide; lia).
  rewrite decide_True by done.
  destruct (lookup_lt_is_Some_2 df (Z.to_nat j)) as [r ->]; [lia|]. by exists r.
Qed.

Lemma iloc_out_of_range (df : DataFrame) (i : Z) :
  ¬ (- Z.of_nat (length df) ≤ i < Z.of_nat (length df)) →
  iloc df i = Raise IndexError.
Proof.
  intros Hi. unfold iloc. cbv zeta.
  rewrite (decide_False (P := 0 ≤ _ < _)); [done|]. case_decide; lia.
Qed.

Lemma merge_rows_lookup (df : DataFrame) deltas rows j i (delta : dict) :
  merge_rows df deltas = Ok rows →
  deltas !! j = Some (i, delta) →
  ∃ r, iloc df i = Ok r ∧ rows !! j = Some (delta ∪ to_dict r).
Proof.
  revert rows j. induction deltas as [|[i' delta'] deltas IH]; intros rows j; [done|].
  simpl. destruct (iloc df i') as [r'|] eqn:Hr'; [|done]. simpl.
  destruct (merge_rows df deltas) as [rows'|]; [|done]. simpl.
  intros [= <-]. destruct j as [|j]; simpl.
  - intros [= <- <-]. eauto.
  - intros Hj. by apply IH.
Qed.

Lemma merge_rows_length (df : DataFrame) deltas rows :
  merge_rows df deltas = Ok rows → length rows = length deltas.
Proof.
  revert rows. induction deltas as [|[i delta] deltas IH]; intros rows; simpl.
  - by intros [= <-].
  - destruct (iloc df i); [|done]. simpl.
    destruct (merge_rows df deltas) as [rows'|]; [|done]. simpl.
    intros [= <-]. simpl. f_equal. by apply IH.
Qed.

(** The loop completes exactly when every position is one [iloc] accepts. *)
Lemma merge_rows_in_range (df : DataFrame) (deltas : list (Z * dict)) :
  (∀ p, p ∈ deltas → - Z.of_nat (length df) ≤ p.1 < Z.of_nat (length df)) →
  ∃ rows, merge_rows df deltas = Ok rows.
Proof.
  induction deltas as [|[i delta] deltas IH]; intros H; simpl; [by eexists|].
  destruct (iloc_in_range df i) as [r ->]; [apply (H (i, delta)); left|]. simpl.
  destruct IH as [rows ->]; [intros p Hp; apply H; by right|]. simpl. by eexists.
Qed.

Lemma merge_rows_out_of_range (df : DataFrame) (deltas : list (Z * dict)) p :
  p ∈ deltas →
  ¬ (- Z.of_nat (length df) ≤ p.1 < Z.of_nat (length df)) →
  merge_rows df deltas = Raise IndexError.
Proof.
  intros Hp Hr. induction deltas as [|[i delta] deltas IH]; [by apply elem_of_nil in Hp|].
  simpl. destruct (iloc df i) as [r|e] eqn:Hi; simpl.
  - apply elem_of_cons in Hp as [->|Hp].
    + simpl in Hr. by rewrite iloc_out_of_range in Hi.
    + by rewrite IH.
  - by rewrite (iloc_error _ _ _ Hi).
Qed.

(** ** Inserts *)

Lemma foldr_max_ge (k : Z) (ks : list Z) (x : Z) :
  x ∈ k :: ks → x ≤ foldr Z.max k ks.
Proof.
  induction ks as [|k' ks IH]; simpl.
  - intros ->%list_elem_of_singleton. lia.
  - rewrite !elem_of_cons. intros [->|[->|Hx]].
    + etrans; [apply IH; left|]. lia.
    + lia.
    + etrans; [apply IH; by right|]. lia.
Qed.

Lemma foldr_max_bounded (k : Z) (ks : list Z) :
  (∀ x, x ∈ ks → x ≤ k) → foldr Z.max k ks = k.
Proof.
  induction ks as [|k' ks IH]; intros H; simpl; [done|].
  rewrite IH by (intros x Hx; apply H; by right).
  pose proof (H k' ltac:(left)). lia.
Qed.

(** The rowid given to a [NULL] id is above every rowid in the table. *)
Lemma new_rowid_above (t : table) (r : row) :
  r ∈ rows t → id r < new_rowid t.
Proof.
  intros Hr. unfold new_rowid.
  apply (list_elem_of_fmap_2 id) in Hr.
  destruct (id <$> rows t) as [|k ks]; [by apply elem_of_nil in Hr|].
  pose proof (foldr_max_ge k ks _ Hr). lia.
Qed.

Lemma new_rowid_fresh (t : table) : new_rowid t ∉ id <$> rows t.
Proof.
  intros (r & Hk & Hr)%list_elem_of_fmap.
  pose proof (new_rowid_above t r Hr). lia.
Qed.

Lemma new_rowid_after_append (rs : list row) (r : row) (n : Z) :
  (∀ r', r' ∈ rs → id r' < id r) →
  new_rowid (Table (rs ++ [r]) (id r)) = id r + 1.
Proof.
  intros Hlt. unfold new_rowid. simpl. rewrite fmap_app. simpl.
  destruct (id <$> rs) as [|k ks] eqn:E; simpl; [lia|].
  rewrite foldr_app. simpl.
  assert (∀ x, x ∈ k :: ks → x < id r) as Hlt'.
  { intros x. rewrite <-E. intros (r' & -> & Hr')%list_elem_of_fmap. by apply Hlt. }
  pose proof (Hlt' k ltac:(left)).
  replace (Z.max (id r) k) with (id r) by lia.
  rewrite foldr_max_bounded; [lia|].
  intros x Hx. apply Z.lt_le_incl, Hlt'. by right.
Qed.

(** A row whose rowid is above all others goes last. *)
Lemma insert_by_rowid_last (r : row) (rs : list row) :
  (∀ r', r' ∈ rs → id r' < id r) → insert_by_rowid r rs = rs ++ [r].
Proof.
  induction rs as [|r' rs IH]; intros H; simpl; [done|].
  pose proof (H r' ltac:(left)). rewrite decide_False by lia.
  f_equal. apply IH. intros r'' Hr''. apply H. by right.
Qed.

Lemma param_DefaultDict (d : dict) (f : string) :
  param (DefaultDict d) f = Ok (sqlite3_bind (default VNull (d !! f))).
Proof. reflexivity. Qed.

(** Without the [defaultdict] wrapper an absent field would make the driver
    raise instead. *)
Lemma param_PlainDict_missing (d : dict) (f : string) :
  d !! f = None → param (PlainDict d) f = Raise (ProgrammingError f).
Proof. intros H. simpl. by rewrite H. Qed.

Lemma no_id_absent (d : dict) : d !! "id" = None → no_id d.
Proof. intros H. unfold no_id. by rewrite H. Qed.

Lemma insert_values_auto name cid tops penalty descr (t : table) :
  insert_values VNull name cid tops penalty descr t =
  Ok (Table (rows t ++ [Row (new_rowid t) name (integer_affinity cid)
                          (integer_affinity tops) (integer_affinity penalty)
                          descr])
        (new_rowid t)).
Proof.
  unfold insert_values. cbn [integer_affinity]. cbv zeta.
  rewrite insert_by_rowid_last; [done|].
  intros r' Hr'. simpl. by apply new_rowid_above.
Qed.

(** The [INSERT] run for a partial record that leaves the id to SQLite
    appends one row under a new rowid. *)
Lemma sql_insert_auto (d : dict) (t : table) :
  no_id d →
  sql_insert (DefaultDict d) t =
  Ok {| rows := rows t ++ [stored (inserted_row (new_rowid t) d)];
        sqlite_sequence := new_rowid t |}.
Proof.
  intros Hid. unfold sql_insert. rewrite !param_DefaultDict.
  unfold no_id in Hid. rewrite Hid. cbn [rbind]. apply insert_values_auto.
Qed.

Lemma new_rowid_next (t : table) (r : row) :
  id r = new_rowid t →
  new_rowid (Table (rows t ++ [r]) (new_rowid t)) = new_rowid t + 1.
Proof.
  intros Hid. rewrite <-Hid.
  apply (new_rowid_after_append (rows t) r 0).
  intros r' Hr'. rewrite Hid. by apply new_rowid_above.
Qed.

Lemma inserted_cons (k : Z) (d : dict) (added : list dict) :
  inserted k (d :: added) = stored (inserted_row k d) :: inserted (k + 1) added.
Proof.
  unfold inserted. cbn [length].
  replace (Z.of_nat (S (length added))) with (Z.succ (Z.of_nat (length added)))
    by lia.
  rewrite (seqZ_cons k) by lia. cbn [zip_with]. rewrite Z.pred_succ.
  by rewrite <-Z.add_1_r.
Qed.

Lemma run_many_insert_auto (added : list dict) (t : table) :
  (∀ d, d ∈ added → no_id d) →
  run_many sql_insert (insert_params added) t =
  (Ok tt,
   Table (rows t ++ inserted (new_rowid t) added) (next_sequence t added)).
Proof.
  unfold next_sequence.
  revert t. induction added as [|d added IH]; intros t H.
  - cbn [insert_params fmap list_fmap run_many]. unfold inserted. simpl.
    rewrite app_nil_r. by destruct t.
  - unfold insert_params. rewrite fmap_cons. cbn [run_many].
    fold (insert_params added).
    rewrite sql_insert_auto by (apply H; left).
    rewrite IH by (intros d' Hd'; apply H; by right).
    rewrite new_rowid_next by done. cbn [rows sqlite_sequence].
    rewrite inserted_cons, <-app_assoc. do 2 f_equal.
    destruct added; simpl; lia.
Qed.

(** ** Deletes *)

Lemma loc_id_position (df : DataFrame) (i : Z) (r : row) :
  0 ≤ i → df !! Z.to_nat i = Some r → loc_id df i = Ok (id r).
Proof. intros Hi Hr. unfold loc_id. rewrite decide_True by done. by rewrite Hr. Qed.

Lemma loc_id_out_of_range (df : DataFrame) (i : Z) :
  ¬ (0 ≤ i < Z.of_nat (length df)) → loc_id df i = Raise (KeyError i).
Proof.
  intros Hi. unfold loc_id. case_decide; [|done].
  rewrite lookup_ge_None_2; [done|lia].
Qed.

Lemma sql_delete_id (k : Z) (t : table) :
  sql_delete (PlainDict {[ "id" := VInt k ]}) t =
  Ok {| rows := filter (λ r, id r ≠ k) (rows t);
        sqlite_sequence := sqlite_sequence t |}.
Proof. reflexivity. Qed.

Lemma filter_all {A} (P : A → Prop) `{∀ x, Decision (P x)} (l : list A) :
  (∀ x, x ∈ l → P x) → filter P l = l.
Proof.
  induction l as [|x l IH]; intros HP; [done|].
  rewrite filter_cons_True by (apply HP; left).
  f_equal. apply IH. intros y Hy. apply HP. by right.
Qed.

Lemma elem_of_deleted_ids (df : DataFrame) (deleted : list Z) (k : Z) :
  k ∈ deleted_ids df deleted ↔ ∃ i, i ∈ deleted ∧ loc_id df i = Ok k.
Proof.
  unfold deleted_ids. rewrite list_elem_of_omap. split.
  - intros (i & Hi & Hk). exists i. split; [done|].
    destruct (loc_id df i); by simplify_eq.
  - intros (i & Hi & Hk). exists i. by rewrite Hk.
Qed.

Lemma loc_id_Ok (df : DataFrame) (i k : Z) :
  loc_id df i = Ok k ↔ 0 ≤ i ∧ ∃ r, df !! Z.to_nat i = Some r ∧ id r = k.
Proof.
  unfold loc_id. case_decide as Hi.
  - destruct (df !! Z.to_nat i) as [r|].
    + split; [intros [= <-]; eauto|]. by intros (_ & r' & [= <-] & <-).
    + split; [done|]. by intros (_ & r' & [=] & _).
  - split; [done|]. by intros [? _].
Qed.

(** The [DELETE]s of a batch of present positions, run in order, remove
    the rows whose id is the id of a deleted position, and only those. *)
Lemma run_many_delete_present (df : DataFrame) (deleted : list Z) (t : table) :
  (∀ i, i ∈ deleted → in_snapshot df i) →
  run_many sql_delete (delete_params df deleted) t =
  (Ok tt, Table (filter (λ r, id r ∉ deleted_ids df deleted) (rows t))
            (sqlite_sequence t)).
Proof.
  revert t. induction deleted as [|i deleted IH]; intros t Hpos.
  - cbn [delete_params fmap list_fmap run_many]. destruct t as [rs sq].
    cbn [rows sqlite_sequence]. rewrite filter_all; [done|].
    intros r _. unfold deleted_ids. simpl. apply not_elem_of_nil.
  - destruct (Hpos i ltac:(left)) as [Hi0 Hin].
    destruct (lookup_lt_is_Some_2 df (Z.to_nat i)) as [r Hr]; [lia|].
    unfold delete_params. rewrite fmap_cons.
    rewrite (loc_id_position df i r) by done. cbn [rbind run_many].
    rewrite sql_delete_id. fold (delete_params df deleted).
    rewrite IH by (intros i' Hi'; apply Hpos; by right).
    cbn [rows sqlite_sequence]. do 2 f_equal.
    rewrite list_filter_filter. apply list_filter_iff. intros r'.
    unfold deleted_ids. cbn [omap list_omap].
    rewrite (loc_id_position df i r) by done. fold (deleted_ids df deleted).
    rewrite not_elem_of_cons. tauto.
Qed.

Lemma deletes_block_present (df : DataFrame) (b : Changes) c t :
  view c = Some t →
  (∀ i, i ∈ deleted_rows b → in_snapshot df i) →
  ∃ c1, deletes_block df b c = (Ok tt, c1) ∧
        durable c1 = durable c ∧
        view c1 = Some (Table (filter (λ r, id r ∉ deleted_ids df (deleted_rows b))
                                 (rows t))
                          (sqlite_sequence t)).
Proof.
  intros Hv Hpos. unfold deletes_block.
  pose proof (run_many_delete_present df (deleted_rows b) t Hpos) as Hrun.
  destruct (deleted_rows b) as [|i deleted] eqn:E.
  - exists c. cbn [truthy]. split; [done|]. split; [done|].
    rewrite Hv. destruct t as [rs sq]. cbn [rows sqlite_sequence].
    rewrite filter_all; [done|]. intros r _. apply not_elem_of_nil.
  - cbn [truthy]. rewrite (executemany_run _ _ _ _ _ _ Hv Hrun). by eexists.
Qed.

(** ** Stale positions *)

Lemma rbind_Raise {A B} (x : result A) (k : A → result B) (e : exn) :
  rbind x k = Raise e → x = Raise e ∨ ∃ a, x = Ok a ∧ k a = Raise e.
Proof.
  destruct x as [a|e']; simpl; intros H.
  - right. by exists a.
  - left. by injection H as ->.
Qed.

Lemma param_error m f e : param m f = Raise e → is_sqlite3_Error e = true.
Proof.
  destruct m as [d|d]; simpl; [|done].
  destruct (d !! f); [done|]. by intros [= <-].
Qed.

(** Peel the bindings off a computation [H] that raised: [split] tells which
    side of a binding raised, [leaf] settles the case of the bound
    computation. *)
Ltac peel_bindings H split leaf :=
  repeat (apply split in H as [H|(? & _ & H)]; [by apply leaf in H|]).

Lemma sql_update_error m t e : sql_update m t = Raise e → is_sqlite3_Error e = true.
Proof. unfold sql_update. intros H. peel_bindings H @rbind_Raise param_error. done. Qed.

Lemma sql_insert_error m t e : sql_insert m t = Raise e → is_sqlite3_Error e = true.
Proof.
  unfold sql_insert. intros H. peel_bindings H @rbind_Raise param_error.
  unfold insert_values in H. repeat case_match; try done; by injection H as <-.
Qed.

Lemma sql_delete_error m t e : sql_delete m t = Raise e → is_sqlite3_Error e = true.
Proof. unfold sql_delete. intros H. peel_bindings H @rbind_Raise param_error. done. Qed.

(** When no parameter set raises, a failure of [executemany] is the
    statement's. *)
Lemma run_many_error stmt (params : list (result mapping)) t e t' :
  (∀ m t e, stmt m t = Raise e → is_sqlite3_Error e = true) →
  Forall (λ p, ∃ m, p = Ok m) params →
  run_many stmt params t = (Raise e, t') → is_sqlite3_Error e = true.
Proof.
  intros Hstmt Hok. revert t.
  induction Hok as [|p params [m ->] _ IH]; intros t; simpl; [done|].
  destruct (stmt m t) as [t1|e1] eqn:E; [apply IH|].
  intros [= <- <-]. by eapply Hstmt.
Qed.

Lemma executemany_error stmt (params : list (result mapping)) c e c' :
  (∀ m t e, stmt m t = Raise e → is_sqlite3_Error e = true) →
  Forall (λ p, ∃ m, p = Ok m) params →
  executemany stmt params c = (Raise e, c') → is_sqlite3_Error e = true.
Proof.
  intros Hstmt Hok. unfold executemany.
  destruct (view c) as [t|]; [|by intros [= <- <-]].
  destruct (run_many stmt params t) as [r t'] eqn:E.
  intros [= -> <-]. by eapply run_many_error.
Qed.

Lemma merge_rows_shape (df : DataFrame) deltas rows :
  merge_rows df deltas = Ok rows →
  Forall (λ d, ∃ (delta : dict) r, d = delta ∪ to_dict r) rows.
Proof.
  revert rows. induction deltas as [|[i delta] deltas IH]; intros rows; simpl.
  - intros [= <-]. constructor.
  - destruct (iloc df i) as [r|]; [|done]. simpl.
    destruct (merge_rows df deltas) as [rows'|]; [|done]. simpl.
    intros [= <-]. constructor; eauto.
Qed.

(** The [UPDATE]s of merged rows all run. *)
Lemma run_many_update_merged (dicts : list dict) (t : table) :
  Forall (λ d, ∃ (delta : dict) r, d = delta ∪ to_dict r) dicts →
  run_many sql_update ((λ d, Ok (PlainDict d)) <$> dicts) t =
  (Ok tt, Table (updates dicts (rows t)) (sqlite_sequence t)).
Proof.
  intros H. revert t.
  induction H as [|d dicts (delta & r & ->) _ IH]; intros t.
  - by destruct t.
  - rewrite fmap_cons. cbn [run_many]. rewrite sql_update_merged.
    by rewrite IH.
Qed.

(** The first delete position outside the snapshot stops the [DELETE]s. *)
Lemma run_many_delete_stale (df : DataFrame) (deleted : list Z) (t : table) :
  (∃ i, i ∈ deleted ∧ ¬ in_snapshot df i) →
  ∃ i t', i ∈ deleted ∧ ¬ in_snapshot df i ∧
          run_many sql_delete (delete_params df deleted) t = (Raise (KeyError i), t').
Proof.
  revert t. induction deleted as [|i deleted IH]; intros t (i0 & Hin & Hout).
  - by apply elem_of_nil in Hin.
  - simpl. destruct (decide (in_snapshot df i)) as [Hi|Hi].
    + destruct Hi as [Hi0 Hin']. destruct (lookup_lt_is_Some_2 df (Z.to_nat i)) as [r Hr];
        [lia|].
      rewrite (loc_id_position df i r) by done. simpl. rewrite sql_delete_id.
      apply elem_of_cons in Hin as [->|Hin]; [by destruct Hout|].
      edestruct IH as (i1 & t' & ? & ? & ->); [by eauto|].
      exists i1, t'. split_and!; [by right|done..].
    + rewrite loc_id_out_of_range by done. simpl.
      exists i, t. split_and!; [by left|done..].
Qed.

Lemma delete_params_present (df : DataFrame) (deleted : list Z) :
  (∀ i, i ∈ deleted → in_snapshot df i) →
  Forall (λ p, ∃ m, p = Ok m) (delete_params df deleted).
Proof.
  induction deleted as [|i deleted IH]; intros H; [constructor|].
  destruct (H i ltac:(left)) as [Hi0 Hin].
  destruct (lookup_lt_is_Some_2 df (Z.to_nat i)) as [r Hr]; [lia|].
  simpl. constructor.
  - rewrite (loc_id_position df i r) by done. simpl. by eexists.
  - apply IH. intros i' Hi'. apply H. by right.
Qed.

Lemma truthy_elem_of {A} (l : list A) (x : A) : x ∈ l → truthy l = true.
Proof. destruct l; [by intros ?%elem_of_nil|done]. Qed.

(** The edits block runs through when the loop completes and the table
    exists; the transaction then holds the updated rows. *)
Lemma edits_block_merged (df : DataFrame) (b : Changes) c t dicts :
  view c = Some t →
  merge_rows df (edited_rows b) = Ok dicts →
  ∃ c1, edits_block b df b c = (Ok tt, c1) ∧
        durable c1 = durable c ∧
        view c1 = Some (Table (updates dicts (rows t)) (sqlite_sequence t)).
Proof.
  intros Hv Hrows. unfold edits_block.
  destruct (edited_rows b) as [|p edits] eqn:E.
  - injection Hrows as <-. exists c. cbn [truthy]. split; [done|].
    split; [done|]. rewrite Hv. by destruct t.
  - cbn [truthy]. unfold bind, lift. rewrite Hrows.
    rewrite (executemany_run _ _ _ t (Ok tt)
               (Table (updates dicts (rows t)) (sqlite_sequence t)) Hv).
    + by eexists.
    + apply run_many_update_merged. rewrite <-E in Hrows.
      by eapply merge_rows_shape.
Qed.

Lemma edits_block_in_range (df : DataFrame) (b : Changes) c t :
  view c = Some t →
  (∀ p, p ∈ edited_rows b → in_iloc_range df p.1) →
  ∃ c1 t1, edits_block b df b c = (Ok tt, c1) ∧
           durable c1 = durable c ∧ view c1 = Some t1.
Proof.
  intros Hv Hin.
  destruct (merge_rows_in_range df (edited_rows b) Hin) as [dicts Hrows].
  destruct (edits_block_merged df b c t dicts Hv Hrows) as (c1 & ? & ? & ?).
  by eexists c1, _.
Qed.

(** The inserts block runs through when every record leaves the id to
    SQLite; the transaction then holds one more row per record. *)
Lemma inserts_block_auto (b : Changes) c t :
  view c = Some t →
  (∀ d, d ∈ added_rows b → no_id d) →
  ∃ c1, inserts_block b c = (Ok tt, c1) ∧
        durable c1 = durable c ∧
        view c1 = Some (Table (rows t ++ inserted (new_rowid t) (added_rows b))
                          (next_sequence t (added_rows b))).
Proof.
  intros Hv Hid. unfold inserts_block.
  pose proof (run_many_insert_auto (added_rows b) t Hid) as Hrun.
  destruct (added_rows b) as [|d added] eqn:E.
  - exists c. cbn [truthy]. split; [done|]. split; [done|].
    rewrite Hv. unfold inserted. simpl. rewrite app_nil_r. by destruct t.
  - cbn [truthy]. rewrite (executemany_run _ _ _ _ _ _ Hv Hrun). by eexists.
Qed.

(** ** The primary key *)

Lemma rbind_Ok {A B} (x : result A) (k : A → result B) (b : B) :
  rbind x k = Ok b → ∃ a, x = Ok a ∧ k a = Ok b.
Proof. destruct x as [a|e]; simpl; [by exists a|done]. Qed.

Lemma insert_by_rowid_Permutation (r : row) (rs : list row) :
  insert_by_rowid r rs ≡ₚ r :: rs.
Proof.
  induction rs as [|r' rs IH]; simpl; [done|].
  case_decide; [done|]. rewrite IH. apply Permutation_swap.
Qed.

Lemma insert_values_ids idv name cid tops penalty descr t t' :
  insert_values idv name cid tops penalty descr t = Ok t' →
  ∃ k, (k ∉ id <$> rows t) ∧ id <$> rows t' ≡ₚ k :: (id <$> rows t).
Proof.
  unfold insert_values. cbv zeta.
  destruct (integer_affinity idv) as [|k| |]; [| |done..].
  - intros [= <-]. exists (new_rowid t). split; [apply new_rowid_fresh|].
    simpl. by rewrite insert_by_rowid_Permutation.
  - case_decide as Hk; [done|]. intros [= <-]. exists k. split; [done|].
    simpl. by rewrite insert_by_rowid_Permutation.
Qed.

(** None of the three statements of [update_data] can make two rows share
    an id. *)
Lemma statements_keep_primary_key (m : mapping) (t t' : table) :
  NoDup (id <$> rows t) →
  sql_update m t = Ok t' ∨ sql_insert m t = Ok t' ∨ sql_delete m t = Ok t' →
  NoDup (id <$> rows t').
Proof.
  intros Hpk [H|[H|H]].
  - unfold sql_update in H.
    repeat (apply rbind_Ok in H as (? & _ & H)). injection H as <-. simpl.
    rewrite <-list_fmap_compose.
    erewrite list_fmap_ext; [exact Hpk|]. intros j r _. simpl. by case_decide.
  - unfold sql_insert in H.
    repeat (apply rbind_Ok in H as (? & _ & H)).
    apply insert_values_ids in H as (k & Hk & ->). by apply NoDup_cons.
  - unfold sql_delete in H.
    repeat (apply rbind_Ok in H as (? & _ & H)). injection H as <-. simpl.
    eapply sublist_NoDup; [exact Hpk|]. apply fmap_sublist, sublist_filter.
Qed.

Lemma run_many_keeps_primary_key stmt params t r t' :
  (∀ m t t', NoDup (id <$> rows t) → stmt m t = Ok t' → NoDup (id <$> rows t')) →
  NoDup (id <$> rows t) →
  run_many stmt params t = (r, t') →
  NoDup (id <$> rows t').
Proof.
  intros Hstmt. revert t. induction params as [|[m|e] params IH]; intros t Hpk; simpl.
  - by intros [= _ <-].
  - destruct (stmt m t) as [t1|e1] eqn:E; [|by intros [= _ <-]].
    apply IH. by eapply Hstmt.
  - by intros [= _ <-].
Qed.

Lemma keeps_primary_key_ret {A} (a : A) : keeps_primary_key (ret a).
Proof. by intros c r c' Hpk [= _ <-]. Qed.

Lemma keeps_primary_key_lift {A} (x : result A) : keeps_primary_key (lift x).
Proof. by intros c r c' Hpk [= _ <-]. Qed.

Lemma keeps_primary_key_bind {A B} (m : M A) (k : A → M B) :
  keeps_primary_key m → (∀ a, keeps_primary_key (k a)) →
  keeps_primary_key (bind m k).
Proof.
  intros Hm Hk c r c' Hpk. unfold bind.
  destruct (m c) as [[a|e] c1] eqn:E.
  - apply Hk. by eapply Hm.
  - intros [= _ <-]. by eapply Hm.
Qed.

Lemma keeps_primary_key_executemany stmt params :
  (∀ m t t', NoDup (id <$> rows t) → stmt m t = Ok t' → NoDup (id <$> rows t')) →
  keeps_primary_key (executemany stmt params).
Proof.
  intros Hstmt c r c' Hpk. unfold executemany.
  destruct (view c) as [t|] eqn:Hv; [|by intros [= _ <-]].
  destruct (run_many stmt params t) as [r' t'] eqn:E.
  intros [= _ <-] t'' [= <-].
  eapply run_many_keeps_primary_key; [done| |done]. by apply Hpk.
Qed.

Lemma keeps_primary_key_commit : keeps_primary_key commit.
Proof. intros c r c' Hpk [= _ <-]. exact Hpk. Qed.

(** X2. Whatever the batch and whatever the outcome, [update_data] leaves
    the connection with a table that respects the primary key: if no two
    rows read through the connection share an id before the call, none do
    after it, whether it returned or raised. *)
Lemma update_data_keeps_primary_key ss conn df changes r conn' :
  primary_key conn →
  update_data ss conn df changes = (r, conn') →
  primary_key conn'.
Proof.
  revert conn r conn'. change (keeps_primary_key (λ c, update_data ss c df changes)).
  unfold update_data.
  repeat (apply keeps_primary_key_bind; [|intros _]);
    [destruct (truthy _)..|apply keeps_primary_key_commit];
    try apply keeps_primary_key_ret.
  - apply keeps_primary_key_bind; [apply keeps_primary_key_lift|intros rows].
    apply keeps_primary_key_executemany. intros m t t' Hpk H.
    eapply statements_keep_primary_key; eauto.
  - apply keeps_primary_key_executemany. intros m t t' Hpk H.
    eapply statements_keep_primary_key; eauto.
  - apply keeps_primary_key_executemany. intros m t t' Hpk H.
    eapply statements_keep_primary_key; eauto.
Qed.

(** The seeded table respects it to begin with. *)
Lemma bootstrap_primary_key : primary_key (bootstrap None).2.
Proof.
  intros t Ht. vm_compute in Ht. injection Ht as <-.
  apply (bool_decide_unpack _). vm_compute. exact I.
Qed.

(** ** The round trip *)




(** Under the primary key, a snapshot row's id tells its position. *)
Lemma position_of_id (df : DataFrame) (i j : nat) (r r' : row) :
  NoDup (id <$> df) → df !! i = Some r → df !! j = Some r' → id r = id r' →
  i = j.
Proof.
  intros Hnd Hi Hj Hid. eapply (NoDup_lookup _ _ _ (id r) Hnd).
  - by rewrite list_lookup_fmap, Hi.
  - by rewrite list_lookup_fmap, Hj, Hid.
Qed.

Lemma edit_at_cons (i0 : Z) (delta0 : dict) edits (i : Z) :
  edit_at ((i0, delta0) :: edits) i =
  if decide (i = i0) then Some delta0 else edit_at edits i.
Proof.
  unfold edit_at. simpl. case_decide as Hi.
  - subst. apply lookup_insert_eq.
  - by apply lookup_insert_ne.
Qed.






Lemma ids_inserted (k : Z) (added : list dict) :
  id <$> inserted k added = seqZ k (Z.of_nat (length added)).
Proof.
  unfold inserted. apply fmap_zip_with_l; [done|]. rewrite length_seqZ. lia.
Qed.

Lemma elem_of_inserted (k : Z) (added : list dict) (r : row) :
  r ∈ inserted k added → k ≤ id r.
Proof.
  intros Hr. apply (list_elem_of_fmap_2 id) in Hr.
  rewrite ids_inserted in Hr. apply elem_of_seqZ in Hr. lia.
Qed.

Lemma length_inserted (k : Z) (added : list dict) :
  length (inserted k added) = length added.
Proof. rewrite <-(length_fmap id), ids_inserted, length_seqZ. lia. Qed.

Lemma new_rowid_ids (rs1 rs2 : list row) (sq : Z) :
  id <$> rs1 = id <$> rs2 → new_rowid (Table rs1 sq) = new_rowid (Table rs2 sq).
Proof. intros H. unfold new_rowid. simpl. by rewrite H. Qed.



(** ** What a commit leaves in the table *)

(** *** The updates, row by row *)

Lemma updates_fmap (dicts : list dict) (rs : list row) :
  updates dicts rs = (λ r, foldl (λ r d, updated d r) r dicts) <$> rs.
Proof.
  unfold updates. revert rs. induction dicts as [|d dicts IH]; intros rs.
  - cbn [foldl]. symmetry. apply list_fmap_id.
  - cbn [foldl]. rewrite IH, <-list_fmap_compose. done.
Qed.

Lemma id_updated (d : dict) (r : row) : id (updated d r) = id r.
Proof. unfold updated. by case_decide. Qed.

Lemma id_foldl_updated (dicts : list dict) (r : row) :
  id (foldl (λ r d, updated d r) r dicts) = id r.
Proof.
  revert r. induction dicts as [|d dicts IH]; intros r; [done|].
  cbn [foldl]. by rewrite IH, id_updated.
Qed.

Lemma ids_updates (dicts : list dict) (rs : list row) :
  id <$> updates dicts rs = id <$> rs.
Proof.
  rewrite updates_fmap, <-list_fmap_compose. apply list_fmap_ext.
  intros j r _. apply id_foldl_updated.
Qed.

Lemma where_id_target (d : dict) (r : row) :
  where_id (sqlite3_bind (default VNull (d !! "id"))) r ↔ target d = Some (id r).
Proof.
  rewrite where_id_affinity. unfold target.
  destruct (integer_affinity _); split; congruence.
Qed.

Lemma updated_target (d : dict) (r : row) :
  target d = Some (id r) → updated d r = stored (inserted_row (id r) d).
Proof. intros H. unfold updated. rewrite decide_True; [done|]. by apply where_id_target. Qed.

Lemma updated_untargeted (d : dict) (r : row) :
  target d ≠ Some (id r) → updated d r = r.
Proof. intros H. unfold updated. rewrite decide_False; [done|]. by rewrite where_id_target. Qed.

(** A row that no update is keyed to stays as it is. *)
Lemma foldl_updated_untargeted (dicts : list dict) (r : row) :
  (∀ d, d ∈ dicts → target d ≠ Some (id r)) →
  foldl (λ r d, updated d r) r dicts = r.
Proof.
  induction dicts as [|d dicts IH]; intros H; [done|].
  cbn [foldl]. rewrite updated_untargeted by (apply H; left).
  apply IH. intros d' Hd'. apply H. by right.
Qed.

(** A row holds the values of the last update keyed to it. *)
Lemma foldl_updated_last (ds1 ds2 : list dict) (d : dict) (r : row) :
  target d = Some (id r) →
  (∀ d', d' ∈ ds2 → target d' ≠ Some (id r)) →
  foldl (λ r d, updated d r) r (ds1 ++ d :: ds2) =
  stored (inserted_row (id r) d).
Proof.
  intros Hd Hds2. rewrite foldl_app. cbn [foldl].
  set (r1 := foldl _ r ds1).
  assert (id r1 = id r) as Hid by apply id_foldl_updated.
  rewrite updated_target by (by rewrite Hid). rewrite Hid.
  apply foldl_updated_untargeted. intros d' Hd'. by apply Hds2.
Qed.

(** *** Merged dictionaries *)

Lemma target_merged (delta : dict) (r : row) :
  delta !! "id" = None → target (delta ∪ to_dict r) = Some (id r).
Proof.
  intros Hid. unfold target.
  by rewrite (default_merged _ _ "id" (VInt (id r))), Hid.
Qed.

Lemma target_merged_id (delta : dict) (r : row) (k : Z) :
  delta !! "id" = Some (VInt k) → target (delta ∪ to_dict r) = Some k.
Proof.
  intros Hid. unfold target.
  by rewrite (default_merged _ _ "id" (VInt (id r))), Hid.
Qed.

Lemma stored_merged (k : Z) (delta : dict) (r : row) :
  stored (inserted_row k (delta ∪ to_dict r)) = with_id k (stored (overlay r delta)).
Proof.
  unfold inserted_row, stored, overlay, with_id.
  cbn [id contestant_name contestant_id total_tops total_penalty description].
  rewrite (default_merged _ _ "contestant_name" (contestant_name r)) by done.
  rewrite (default_merged _ _ "contestant_id" (contestant_id r)) by done.
  rewrite (default_merged _ _ "total_tops" (total_tops r)) by done.
  rewrite (default_merged _ _ "total_penalty" (total_penalty r)) by done.
  by rewrite (default_merged _ _ "description" (description r)).
Qed.

Lemma with_id_same (r : row) : with_id (id r) r = r.
Proof. by destruct r. Qed.

Lemma id_stored (r : row) : id (stored r) = id r.
Proof. done. Qed.

Lemma merge_rows_app (df : DataFrame) (es1 es2 : list (Z * dict)) :
  merge_rows df (es1 ++ es2) =
  (try ds1 <- merge_rows df es1;
   try ds2 <- merge_rows df es2;
   Ok (ds1 ++ ds2))%result.
Proof.
  induction es1 as [|[i delta] es1 IH]; cbn [app merge_rows rbind].
  - by destruct (merge_rows df es2).
  - destruct (iloc df i) as [r|]; [|done]. cbn [rbind]. rewrite IH.
    destruct (merge_rows df es1) as [ds1|]; [|done]. cbn [rbind].
    by destruct (merge_rows df es2).
Qed.

(** The dictionary staged for an edit, and those staged before and after
    it. *)
Lemma merge_rows_split (df : DataFrame) es1 (i : Z) (delta : dict) es2 dicts :
  merge_rows df (es1 ++ (i, delta) :: es2) = Ok dicts →
  ∃ ds1 r ds2, dicts = ds1 ++ (delta ∪ to_dict r) :: ds2 ∧ iloc df i = Ok r ∧
               merge_rows df es1 = Ok ds1 ∧ merge_rows df es2 = Ok ds2.
Proof.
  rewrite merge_rows_app. destruct (merge_rows df es1) as [ds1|]; [|done].
  cbn [rbind merge_rows]. destruct (iloc df i) as [r|]; [|done]. cbn [rbind].
  destruct (merge_rows df es2) as [ds2|]; [|done]. cbn [rbind].
  intros [= <-]. by exists ds1, r, ds2.
Qed.

Lemma merge_rows_elem (df : DataFrame) edits dicts (d : dict) :
  merge_rows df edits = Ok dicts → d ∈ dicts →
  ∃ i (delta : dict) r, (i, delta) ∈ edits ∧ iloc df i = Ok r ∧
                        d = delta ∪ to_dict r.
Proof.
  revert dicts. induction edits as [|[i delta] edits IH]; intros dicts.
  - intros [= <-] []%elem_of_nil.
  - cbn [merge_rows]. destruct (iloc df i) as [r|] eqn:Hi; [|done]. cbn [rbind].
    destruct (merge_rows df edits) as [dicts'|]; [|done]. cbn [rbind].
    intros [= <-] [->|Hd]%elem_of_cons.
    + exists i, delta, r. split; [left|done].
    + destruct (IH dicts' eq_refl Hd) as (i' & delta' & r' & ? & ? & ?).
      exists i', delta', r'. split; [by right|done].
Qed.

(** *** The three blocks and the commit *)

Lemma new_rowid_updates (dicts : list dict) (t : table) :
  new_rowid (Table (updates dicts (rows t)) (sqlite_sequence t)) = new_rowid t.
Proof.
  destruct t as [rs sq]. apply new_rowid_ids. apply ids_updates.
Qed.

(** A commit whose edit positions [iloc] accepts, whose inserted records
    leave the id to SQLite and whose delete positions are in the snapshot
    goes through, on any table, and leaves [committed] in the file. *)
Lemma on_click_commits (conn : connection) (df : DataFrame) (b : Changes)
    (t : table) (dicts : list dict) :
  view conn = Some t →
  merge_rows df (edited_rows b) = Ok dicts →
  (∀ d, d ∈ added_rows b → no_id d) →
  (∀ i, i ∈ deleted_rows b → in_snapshot df i) →
  on_click conn df b = (Ok tt, Conn (Some (committed df b dicts t)) None).
Proof.
  intros Hv Hdicts Hadded Hdeleted. unfold on_click.
  rewrite update_data_unfold. unfold run_statements, bind.
  destruct (edits_block_merged df b conn t dicts Hv Hdicts) as (c1 & -> & _ & Hv1).
  destruct (inserts_block_auto b c1 _ Hv1 Hadded) as (c2 & -> & _ & Hv2).
  destruct (deletes_block_present df b c2 _ Hv2 Hdeleted) as (c3 & -> & _ & Hv3).
  unfold commit. rewrite Hv3. cbn [rows sqlite_sequence].
  rewrite new_rowid_updates. unfold committed, next_sequence.
  by rewrite new_rowid_updates.
Qed.

(** *** Well-formed batches *)

Section reconciliation.

(** A snapshot that respects the primary key and a well-formed batch over
    it. *)
Context (df : DataFrame) (b : Changes).
Hypothesis primary_key_df : NoDup (id <$> df).
Hypothesis well_formed_b : well_formed df b.

Lemma merge_rows_well_formed : ∃ dicts, merge_rows df (edited_rows b) = Ok dicts.
Proof.
  apply merge_rows_in_range. intros p Hp.
  destruct (wf_edit_positions _ _ well_formed_b p Hp). lia.
Qed.

(** The staged dictionaries are keyed to the ids of the edited snapshot
    rows. *)
Lemma target_staged (edits : list (Z * dict)) (dicts : list dict) (d : dict) :
  (∀ p, p ∈ edits → p ∈ edited_rows b) →
  merge_rows df edits = Ok dicts → d ∈ dicts →
  ∃ i r, i ∈ edits.*1 ∧ df !! Z.to_nat i = Some r ∧ 0 ≤ i ∧
         target d = Some (id r).
Proof.
  intros Hsub Hdicts Hd.
  destruct (merge_rows_elem df edits dicts d Hdicts Hd)
    as (i & delta & r & Hp & Hr & ->).
  pose proof (Hsub _ Hp) as Hp'.
  destruct (wf_edit_positions _ _ well_formed_b _ Hp') as [Hi0 Hilt].
  cbn [fst] in Hi0, Hilt.
  destruct (lookup_lt_is_Some_2 df (Z.to_nat i)) as [r' Hr']; [lia|].
  rewrite (iloc_position df i r') in Hr by done. injection Hr as <-.
  exists i, r'. split; [by apply (list_elem_of_fmap_2 fst) in Hp|].
  split; [done|]. split; [done|].
  apply target_merged. apply (wf_edit_no_id _ _ well_formed_b _ Hp').
Qed.

(** A live row with the id of an edited snapshot row ends up as that
    snapshot row with the partial record overlaid, as SQLite stores it. *)
Lemma edited_row (dicts : list dict) (i : Z) (delta : dict) (r r0 : row) :
  merge_rows df (edited_rows b) = Ok dicts →
  (i, delta) ∈ edited_rows b → df !! Z.to_nat i = Some r → id r0 = id r →
  foldl (λ r d, updated d r) r0 dicts = stored (overlay r delta).
Proof.
  intros Hdicts Hp Hr Hid.
  destruct (wf_edit_positions _ _ well_formed_b _ Hp) as [Hi0 _]. cbn [fst] in Hi0.
  pose proof (wf_edit_keys _ _ well_formed_b) as Hkeys.
  destruct (list_elem_of_split _ _ Hp) as (es1 & es2 & Hsplit).
  rewrite Hsplit in Hdicts, Hkeys.
  destruct (merge_rows_split df es1 i delta es2 dicts Hdicts)
    as (ds1 & r' & ds2 & -> & Hr' & _ & Hds2).
  rewrite (iloc_position df i r) in Hr' by done. injection Hr' as <-.
  pose proof (wf_edit_no_id _ _ well_formed_b _ Hp) as Hnoid. cbn [snd] in Hnoid.
  rewrite foldl_updated_last.
  - rewrite stored_merged, Hid. apply (with_id_same (stored (overlay r delta))).
  - by rewrite target_merged, Hid.
  - intros d' Hd'.
    destruct (target_staged es2 ds2 d') as (i' & r' & Hi' & Hr' & Hi'0 & ->);
      [|done|done|].
    { intros p' Hp'. rewrite Hsplit. apply elem_of_app. right. by right. }
    intros [= Heq]. rewrite Hid in Heq.
    pose proof (position_of_id df _ _ _ _ primary_key_df Hr' Hr Heq) as Hpos.
    rewrite fmap_app, fmap_cons in Hkeys.
    apply NoDup_app in Hkeys as (_ & _ & [Hnotin _]%NoDup_cons).
    apply Hnotin. cbn [fst]. by replace i with i' by lia.
Qed.


(** On any table the commit of a well-formed batch goes through. *)
Lemma on_click_well_formed (conn : connection) (t : table) :
  view conn = Some t →
  ∃ dicts, merge_rows df (edited_rows b) = Ok dicts ∧
           on_click conn df b = (Ok tt, Conn (Some (committed df b dicts t)) None).
Proof.
  intros Hv. destruct merge_rows_well_formed as [dicts Hdicts].
  exists dicts. split; [done|]. apply on_click_commits; [done..| |].
  - intros d Hd. apply no_id_absent. by apply (wf_insert_no_id _ _ well_formed_b).
  - apply (wf_delete_positions _ _ well_formed_b).
Qed.


End reconciliation.


(** ** Edits *)

Lemma cell_overlay (f : string) (r : row) (delta : dict) :
  f ∈ data_columns → cell f (overlay r delta) = default (cell f r) (delta !! f).
Proof.
  intros Hf. unfold data_columns in Hf. set_unfold in Hf.
  destruct Hf as [->|[->|[->|[->|[->|[]]]]]]; reflexivity.
Qed.

Lemma cell_stored (f : string) (r : row) :
  f ∈ data_columns → cell f (stored r) = stored_as f (cell f r).
Proof.
  intros Hf. unfold data_columns in Hf. set_unfold in Hf.
  destruct Hf as [->|[->|[->|[->|[->|[]]]]]]; reflexivity.
Qed.

Lemma stored_as_plain (f : string) (v : value) :
  is_float v = false → stored_as f v = v.
Proof. unfold stored_as. intros H. by destruct v; case_decide. Qed.

Lemma plain_lookup (d : dict) (f : string) (v : value) :
  plain d → f ∈ columns → d !! f = Some v → is_float v = false.
Proof.
  unfold plain. rewrite Forall_forall. intros H Hf Hv.
  specialize (H f Hf). by rewrite Hv in H.
Qed.

(** A row without floats is stored as it is. *)
Lemma stored_plain (r : row) : plain (to_dict r) → stored r = r.
Proof.
  intros H. destruct r as [k n c t p d]. unfold stored.
  cbn [id contestant_name contestant_id total_tops total_penalty description].
  pose proof (plain_lookup _ "contestant_name" n H ltac:(in_columns) eq_refl).
  pose proof (plain_lookup _ "contestant_id" c H ltac:(in_columns) eq_refl).
  pose proof (plain_lookup _ "total_tops" t H ltac:(in_columns) eq_refl).
  pose proof (plain_lookup _ "total_penalty" p H ltac:(in_columns) eq_refl).
  pose proof (plain_lookup _ "description" d H ltac:(in_columns) eq_refl).
  by destruct n, c, t, p, d.
Qed.

Lemma to_dict_lookup (f : string) (r : row) :
  f ∈ data_columns → to_dict r !! f = Some (cell f r).
Proof.
  intros Hf. unfold data_columns in Hf. set_unfold in Hf.
  destruct Hf as [->|[->|[->|[->|[->|[]]]]]]; reflexivity.
Qed.

Lemma columns_cases (f : string) : f ∈ columns ↔ f = "id" ∨ f ∈ data_columns.
Proof. unfold columns, data_columns. by rewrite elem_of_cons. Qed.

Lemma plain_overlay (r : row) (delta : dict) :
  plain (to_dict r) → plain delta → plain (to_dict (overlay r delta)).
Proof.
  intros Hr Hd. unfold plain. apply Forall_forall. intros f Hf.
  pose proof Hf as [->|Hf']%columns_cases; [done|].
  rewrite to_dict_lookup, cell_overlay by done. simpl.
  destruct (delta !! f) as [v|] eqn:E; simpl.
  - by eapply (plain_lookup delta).
  - eapply (plain_lookup (to_dict r)); [done..|]. by apply to_dict_lookup.
Qed.

(** Under the primary key an id of the snapshot is deleted only when its
    position is. *)
Lemma deleted_id_position (df : DataFrame) (deleted : list Z) (i : Z) (r : row) :
  NoDup (id <$> df) → 0 ≤ i → df !! Z.to_nat i = Some r →
  id r ∈ deleted_ids df deleted → i ∈ deleted.
Proof.
  intros Hpk Hi0 Hr (i' & Hi' & (Hi'0 & r' & Hr' & Hid)%loc_id_Ok)%elem_of_deleted_ids.
  pose proof (position_of_id df _ _ _ _ Hpk Hr' Hr Hid).
  by replace i with i' by lia.
Qed.

(** C3. Take a snapshot with distinct ids, a well-formed batch within the
    bounds of the model, and an edit [(i, delta)] of the batch at the
    position of the snapshot row [r]; the table may be any table.  The loop
    stages one dictionary per edit, [delta ∪ to_dict r] at this edit's place,
    and its update is keyed to the id of [r].  The commit goes through, and
    if the table holds a row with the id of [r], the committed table holds
    under that id exactly [r] with [delta] overlaid, as SQLite stores it.
    In the overlay a field of [delta] has the value [delta] gives and any
    other field that of [r]; without floats it is stored as it is; and when
    the row in the table was the snapshot row, the fields absent from
    [delta] are unchanged. *)
Theorem edit_overlays_snapshot_row (conn : connection) (df : DataFrame)
    (b : Changes) (t : table) (i : Z) (delta : dict) (r : row) :
  view conn = Some t →
  NoDup (id <$> df) →
  well_formed df b →
  in_bounds df b t →
  (i, delta) ∈ edited_rows b →
  df !! Z.to_nat i = Some r →
  ∃ dicts t',
    merge_rows df (edited_rows b) = Ok dicts ∧
    length dicts = length (edited_rows b) ∧
    (∀ j, edited_rows b !! j = Some (i, delta) →
          dicts !! j = Some (delta ∪ to_dict r)) ∧
    target (delta ∪ to_dict r) = Some (id r) ∧
    on_click conn df b = (Ok tt, Conn (Some t') None) ∧
    (id r ∈ id <$> rows t →
       stored (overlay r delta) ∈ rows t' ∧
       ∀ r', r' ∈ rows t' → id r' = id r → r' = stored (overlay r delta)) ∧
    id (overlay r delta) = id r ∧
    (∀ f, f ∈ data_columns →
       cell f (overlay r delta) = default (cell f r) (delta !! f) ∧
       cell f (stored (overlay r delta)) =
         stored_as f (default (cell f r) (delta !! f))) ∧
    (plain (to_dict r) → plain delta → stored (overlay r delta) = overlay r delta) ∧
    (∀ r0 f, r0 ∈ rows t → stored r = r0 → f ∈ data_columns →
             delta !! f = None →
             cell f (stored (overlay r delta)) = cell f r0).
Proof.
  intros Hv Hpk Hwf _ Hp Hr.
  destruct (wf_edit_positions _ _ Hwf _ Hp) as [Hi0 _]. cbn [fst] in Hi0.
  destruct (on_click_well_formed df b Hwf conn t Hv) as (dicts & Hdicts & Hrun).
  exists dicts, (committed df b dicts t). split_and!; [done| | | |done| |done| | |].
  - by eapply merge_rows_length.
  - intros j Hj. destruct (merge_rows_lookup _ _ _ _ _ _ Hdicts Hj) as (r' & Hr' & ->).
    rewrite (iloc_position df i r) in Hr' by done. by injection Hr' as <-.
  - apply target_merged. apply (wf_edit_no_id _ _ Hwf _ Hp).
  - intros (r0 & Hid & Hr0)%list_elem_of_fmap. unfold committed. cbn [rows].
    assert (id r ∉ deleted_ids df (deleted_rows b)) as Hkept.
    { intros Hdel%(deleted_id_position df _ i r); [|done..].
      by apply (wf_disjoint _ _ Hwf _ Hp). }
    split.
    + apply list_elem_of_filter. split; [done|]. apply elem_of_app. left.
      rewrite updates_fmap. apply list_elem_of_fmap. exists r0. split; [|done].
      symmetry. by apply (edited_row df b Hpk Hwf dicts i delta r r0).
    + intros r' [_ [Hr'|Hr']%elem_of_app]%list_elem_of_filter Hid'.
      * rewrite updates_fmap in Hr'.
        apply list_elem_of_fmap in Hr' as (r1 & -> & Hr1).
        rewrite id_foldl_updated in Hid'.
        by apply (edited_row df b Hpk Hwf dicts i delta r r1).
      * apply elem_of_inserted in Hr'. pose proof (new_rowid_above t r0 Hr0). lia.
  - intros f Hf. rewrite cell_stored, cell_overlay by done. done.
  - intros Hr_plain Hd_plain. apply stored_plain. by apply plain_overlay.
  - intros r0 f Hr0 <- Hf Hnone.
    rewrite !cell_stored, cell_overlay by done. by rewrite Hnone.
Qed.

(** The spec's example: [{total_tops: 4}] at the position of the row with
    id 5 changes that row's tops to 4 and nothing else. *)
Lemma edit_overlays_snapshot_row_witness :
  let b := {| edited_rows := [(0, {[ "total_tops" := VInt 4 ]})];
              added_rows := []; deleted_rows := [] |} in
  NoDup (id <$> [azrai; joe]) ∧ well_formed [azrai; joe] b ∧
  in_bounds [azrai; joe] b (Table [azrai; joe] 7) ∧
  on_click (fresh_conn [azrai; joe] 7) [azrai; joe] b =
    (Ok tt, fresh_conn [Row 5 (VText "Azrai") (VInt 2501) (VInt 4) (VInt 1)
                          (VText ""); joe] 7).
Proof.
  intros b.
  assert (NoDup (id <$> [azrai; joe])) as Hpk.
  { apply NoDup_cons. split; [|apply NoDup_singleton].
    intros [=]%list_elem_of_singleton. }
  assert (well_formed [azrai; joe] b) as Hwf.
  { split; simpl.
    - apply NoDup_singleton.
    - intros p ->%list_elem_of_singleton. unfold in_snapshot. simpl. lia.
    - intros p ->%list_elem_of_singleton. reflexivity.
    - intros d []%elem_of_nil.
    - intros i []%elem_of_nil.
    - intros p _ []%elem_of_nil. }
  assert (in_bounds [azrai; joe] b (Table [azrai; joe] 7)) as Hin.
  { apply (bool_decide_unpack _). vm_compute. exact I. }
  split; [exact Hpk|]. split; [exact Hwf|]. split; [exact Hin|].
  destruct (edit_overlays_snapshot_row (fresh_conn [azrai; joe] 7) [azrai; joe] b
              (Table [azrai; joe] 7) 0 {[ "total_tops" := VInt 4 ]} azrai
              eq_refl Hpk Hwf Hin ltac:(left) eq_refl)
    as (dicts & t' & _ & _ & _ & _ & Hrun & _).
  rewrite Hrun. vm_compute in Hrun. by injection Hrun as <-.
Defined.

Lemma iloc_in_snapshot (df : DataFrame) (i : Z) (r : row) :
  in_snapshot df i → iloc df i = Ok r → df !! Z.to_nat i = Some r.
Proof.
  intros [Hi0 Hilt] Hr.
  destruct (lookup_lt_is_Some_2 df (Z.to_nat i)) as [r' Hr']; [lia|].
  rewrite (iloc_position df i r') in Hr by done. by injection Hr as <-.
Qed.

Lemma merge_rows_in_snapshot (df : DataFrame) (edits : list (Z * dict)) :
  (∀ p, p ∈ edits → in_snapshot df p.1) → ∃ dicts, merge_rows df edits = Ok dicts.
Proof.
  intros H. apply merge_rows_in_range. intros p Hp. destruct (H p Hp). lia.
Qed.

(** C10. Nothing in [update_data] keeps the id fixed.  Take a batch whose
    statements all run, within the bounds of the model, and an edit of it at
    the position of the snapshot row [r] whose partial record holds
    [id = k].  The dictionary staged for it carries [k] in place of the id
    of [r], and its update is keyed to [k].  After the commit every row of
    the table that had the id [k] holds the merged fields under the id [k],
    unless a later edit is keyed to [k] too or the batch deletes [k]; and
    the row with the id of [r] is what it was, unless some edit is keyed to
    it or the batch deletes it.  The staged dictionary carries the snapshot
    row's id only for a partial record that has no id, or repeats the
    row's. *)
Theorem edit_naming_id_retargets_update (conn : connection) (df : DataFrame)
    (b : Changes) (t : table) (es1 es2 : list (Z * dict)) (i : Z) (delta : dict)
    (r : row) (k : Z) :
  view conn = Some t →
  edited_rows b = es1 ++ (i, delta) :: es2 →
  (∀ p, p ∈ edited_rows b → in_snapshot df p.1) →
  (∀ d, d ∈ added_rows b → no_id d) →
  (∀ j, j ∈ deleted_rows b → in_snapshot df j) →
  in_bounds df b t →
  df !! Z.to_nat i = Some r →
  delta !! "id" = Some (VInt k) →
  ∃ dicts t',
    merge_rows df (edited_rows b) = Ok dicts ∧
    dicts !! length es1 = Some (delta ∪ to_dict r) ∧
    (delta ∪ to_dict r) !! "id" = Some (VInt k) ∧
    target (delta ∪ to_dict r) = Some k ∧
    on_click conn df b = (Ok tt, Conn (Some t') None) ∧
    ((∀ p r', p ∈ es2 → df !! Z.to_nat p.1 = Some r' →
              target (p.2 ∪ to_dict r') ≠ Some k) →
     k ∉ deleted_ids df (deleted_rows b) →
     ∀ r0, r0 ∈ rows t → id r0 = k →
           with_id k (stored (overlay r delta)) ∈ rows t') ∧
    ((∀ p r', p ∈ edited_rows b → df !! Z.to_nat p.1 = Some r' →
              target (p.2 ∪ to_dict r') ≠ Some (id r)) →
     id r ∉ deleted_ids df (deleted_rows b) →
     ∀ r0, r0 ∈ rows t → id r0 = id r → r0 ∈ rows t') ∧
    (∀ delta' : dict,
       (delta' ∪ to_dict r) !! "id" = Some (VInt (id r)) ↔
       delta' !! "id" = None ∨ delta' !! "id" = Some (VInt (id r))).
Proof.
  intros Hv Hsplit Hedits Hadded Hdeleted _ Hr Hid.
  destruct (merge_rows_in_snapshot df (edited_rows b) Hedits) as [dicts Hdicts].
  pose proof (on_click_commits conn df b t dicts Hv Hdicts Hadded Hdeleted) as Hrun.
  assert (in_snapshot df i) as Hi.
  { apply (Hedits (i, delta)). rewrite Hsplit. apply elem_of_app. right. left. }
  pose proof Hdicts as Hdicts'. rewrite Hsplit in Hdicts'.
  destruct (merge_rows_split df es1 i delta es2 dicts Hdicts')
    as (ds1 & r' & ds2 & -> & Hr' & Hds1 & Hds2).
  apply (iloc_in_snapshot df i r' Hi) in Hr'. rewrite Hr in Hr'. injection Hr' as <-.
  exists (ds1 ++ (delta ∪ to_dict r) :: ds2),
    (committed df b (ds1 ++ (delta ∪ to_dict r) :: ds2) t).
  split_and!; [done| | | |done| | |].
  - rewrite <-(merge_rows_length df es1 ds1 Hds1). by apply list_lookup_middle.
  - by rewrite lookup_merged, Hid.
  - by apply target_merged_id.
  - intros Hlater Hkept r0 Hr0 Hk. unfold committed. cbn [rows].
    apply list_elem_of_filter. split; [done|]. apply elem_of_app. left.
    rewrite updates_fmap. apply list_elem_of_fmap. exists r0. split; [|done].
    rewrite foldl_updated_last.
    + by rewrite stored_merged, Hk.
    + rewrite Hk. by apply target_merged_id.
    + intros d' Hd'.
      destruct (merge_rows_elem df es2 ds2 d' Hds2 Hd')
        as (i' & delta' & r' & Hp' & Hr' & ->).
      rewrite Hk. apply (Hlater (i', delta') r' Hp').
      apply iloc_in_snapshot; [|done]. apply (Hedits (i', delta')).
      rewrite Hsplit. apply elem_of_app. right. by right.
  - intros Hnone Hkept r0 Hr0 Hk. unfold committed. cbn [rows].
    apply list_elem_of_filter. split; [by rewrite Hk|]. apply elem_of_app. left.
    rewrite updates_fmap. apply list_elem_of_fmap. exists r0. split; [|done].
    symmetry. apply foldl_updated_untargeted. intros d' Hd'.
    destruct (merge_rows_elem df _ _ d' Hdicts Hd')
      as (i' & delta' & r' & Hp' & Hr' & ->).
    rewrite Hk. apply (Hnone (i', delta') r' Hp').
    apply iloc_in_snapshot; [|done]. by apply (Hedits (i', delta')).
  - intros delta'. rewrite lookup_merged.
    destruct (delta' !! "id") as [v|];
      [split; [intros [= ->]; by right|by intros [[=]|[= ->]]]|].
    split; [by left|reflexivity].
Qed.

(** Azrai's row is edited with a partial record that says [id = 7]: Joe's
    row, the one with id 7, takes Azrai's fields and the four tops, and
    Azrai's row stays as it was. *)
Lemma edit_naming_id_retargets_update_witness :
  let df := [azrai; joe] in
  let delta : dict := {[ "id" := VInt 7; "total_tops" := VInt 4 ]} in
  in_bounds df edit_naming_id (Table df 7) ∧
  (delta ∪ to_dict azrai) !! "id" = Some (VInt 7) ∧
  on_click (fresh_conn df 7) df edit_naming_id =
    (Ok tt, fresh_conn [azrai;
                        Row 7 (VText "Azrai") (VInt 2501) (VInt 4) (VInt 1)
                          (VText "")] 7).
Proof.
  intros df delta.
  assert (in_bounds df edit_naming_id (Table df 7)) as Hin.
  { apply (bool_decide_unpack _). vm_compute. exact I. }
  split; [exact Hin|].
  destruct (edit_naming_id_retargets_update (fresh_conn df 7) df edit_naming_id
              (Table df 7) [] [] 0 delta azrai 7 eq_refl eq_refl)
    as (dicts & t' & _ & _ & Hd & _ & Hrun & _).
  - intros p ->%list_elem_of_singleton. unfold in_snapshot. simpl. lia.
  - intros d []%elem_of_nil.
  - intros j []%elem_of_nil.
  - exact Hin.
  - reflexivity.
  - reflexivity.
  - split; [exact Hd|]. rewrite Hrun. vm_compute in Hrun. by injection Hrun as <-.
Defined.

(** ** Inserts *)

Lemma lookup_inserted (k : Z) (added : list dict) (j : nat) (d : dict) :
  added !! j = Some d →
  inserted k added !! j = Some (stored (inserted_row (k + Z.of_nat j) d)).
Proof.
  intros Hj. unfold inserted. apply lookup_zip_with_Some.
  exists (k + Z.of_nat j), d. split; [done|]. split; [|done].
  apply lookup_seqZ. split; [done|]. apply lookup_lt_Some in Hj. lia.
Qed.

Lemma cell_inserted_row (f : string) (k : Z) (d : dict) :
  f ∈ data_columns → cell f (inserted_row k d) = default VNull (d !! f).
Proof.
  intros Hf. unfold data_columns in Hf. set_unfold in Hf.
  destruct Hf as [->|[->|[->|[->|[->|[]]]]]]; reflexivity.
Qed.

(** The rows a commit keeps and the rows it adds, when the ids of the
    deleted snapshot rows are ids of the table's past. *)
Lemma committed_rows (df : DataFrame) (b : Changes) (dicts : list dict)
    (t : table) :
  (∀ k, k ∈ deleted_ids df (deleted_rows b) → k < new_rowid t) →
  rows (committed df b dicts t) =
  filter (λ r, id r ∉ deleted_ids df (deleted_rows b)) (updates dicts (rows t))
  ++ inserted (new_rowid t) (added_rows b).
Proof.
  intros Hpast. unfold committed. cbn [rows]. rewrite filter_app. f_equal.
  apply filter_all. intros r Hr%elem_of_inserted Hdel.
  apply Hpast in Hdel. lia.
Qed.

(** C4. Take a batch whose statements all run, within the bounds of the
    model, whose inserted records name no id; let the ids of the snapshot
    rows it deletes be below the next rowid of the table.  Each record of
    [added_rows] is handed to the [INSERT] once and in order, wrapped so that
    every named parameter is bound: a field absent from the record, [id]
    included, is bound to [NULL], never left out.  The commit goes through,
    and the committed table ends with one row per record, in batch order,
    under consecutive new ids that no row of the table had; in such a row a
    field of the record has the record's value as SQLite stores it (the
    value itself, unless it is a float) and every other field is [NULL]. *)
Theorem insert_binds_absent_fields_to_null (conn : connection) (df : DataFrame)
    (b : Changes) (t : table) :
  view conn = Some t →
  (∀ p, p ∈ edited_rows b → in_snapshot df p.1) →
  (∀ d, d ∈ added_rows b → d !! "id" = None) →
  (∀ i, i ∈ deleted_rows b → in_snapshot df i) →
  (∀ k, k ∈ deleted_ids df (deleted_rows b) → k < new_rowid t) →
  in_bounds df b t →
  length (insert_params (added_rows b)) = length (added_rows b) ∧
  (∀ j d, added_rows b !! j = Some d →
     insert_params (added_rows b) !! j = Some (Ok (DefaultDict d)) ∧
     ∀ f, param (DefaultDict d) f = Ok (sqlite3_bind (default VNull (d !! f)))) ∧
  ∃ t' kept,
    on_click conn df b = (Ok tt, Conn (Some t') None) ∧
    rows t' = kept ++ inserted (new_rowid t) (added_rows b) ∧
    (∀ r, r ∈ kept → id r ∈ id <$> rows t) ∧
    length (inserted (new_rowid t) (added_rows b)) = length (added_rows b) ∧
    ∀ j d, added_rows b !! j = Some d →
      let k := new_rowid t + Z.of_nat j in
      inserted (new_rowid t) (added_rows b) !! j =
        Some (stored (inserted_row k d)) ∧
      id (stored (inserted_row k d)) = k ∧
      (k ∉ id <$> rows t) ∧
      (∀ f, f ∈ data_columns →
         cell f (stored (inserted_row k d)) =
           stored_as f (default VNull (d !! f))) ∧
      (∀ f, f ∈ data_columns → d !! f = None →
         cell f (stored (inserted_row k d)) = VNull) ∧
      (∀ f v, f ∈ data_columns → d !! f = Some v → is_float v = false →
         cell f (stored (inserted_row k d)) = v).
Proof.
  intros Hv Hedits Hadded Hdeleted Hpast _. split_and!.
  - unfold insert_params. by rewrite length_fmap.
  - intros j d Hj. unfold insert_params. by rewrite list_lookup_fmap, Hj.
  - destruct (merge_rows_in_snapshot df (edited_rows b) Hedits) as [dicts Hdicts].
    exists (committed df b dicts t),
      (filter (λ r, id r ∉ deleted_ids df (deleted_rows b))
         (updates dicts (rows t))).
    split_and!.
    + apply on_click_commits; [done..| |done].
      intros d Hd. by apply no_id_absent, Hadded.
    + by apply committed_rows.
    + intros r [_ Hr]%list_elem_of_filter.
      rewrite <-(ids_updates dicts). by apply list_elem_of_fmap_2.
    + apply length_inserted.
    + intros j d Hj k. split_and!.
      * by apply lookup_inserted.
      * done.
      * intros (r & Hk & Hr)%list_elem_of_fmap.
        pose proof (new_rowid_above t r Hr). lia.
      * intros f Hf. by rewrite cell_stored, cell_inserted_row.
      * intros f Hf Hnone.
        rewrite cell_stored, cell_inserted_row, Hnone by done.
        unfold stored_as. by case_decide.
      * intros f v Hf Hsome Hplain.
        rewrite cell_stored, cell_inserted_row, Hsome by done.
        by apply stored_as_plain.
Qed.

(** The spec's example: [{contestant_name: "New"}] becomes a row with that
    name, [NULL] elsewhere, and the id after the largest one. *)
Lemma insert_binds_absent_fields_to_null_witness :
  let b := {| edited_rows := [];
              added_rows := [ {[ "contestant_name" := VText "New" ]} ];
              deleted_rows := [] |} in
  in_bounds [azrai; joe] b (Table [azrai; joe] 7) ∧
  on_click (fresh_conn [azrai; joe] 7) [azrai; joe] b =
    (Ok tt, fresh_conn [azrai; joe; Row 8 (VText "New") VNull VNull VNull VNull] 8) ∧
  8 ∉ id <$> [azrai; joe].
Proof.
  intros b.
  assert (in_bounds [azrai; joe] b (Table [azrai; joe] 7)) as Hin.
  { apply (bool_decide_unpack _). vm_compute. exact I. }
  split; [exact Hin|].
  destruct (insert_binds_absent_fields_to_null (fresh_conn [azrai; joe] 7)
              [azrai; joe] b (Table [azrai; joe] 7) eq_refl)
    as (_ & _ & t' & kept & Hrun & _ & _ & _ & Hrow).
  - intros p []%elem_of_nil.
  - intros d ->%list_elem_of_singleton. reflexivity.
  - intros i []%elem_of_nil.
  - intros k []%elem_of_nil.
  - exact Hin.
  - split.
    + rewrite Hrun. vm_compute in Hrun. by injection Hrun as <-.
    + exact (proj1 (proj2 (proj2 (Hrow 0%nat _ eq_refl)))).
Defined.

(** ** Deletes *)

Lemma deleted_ids_position (df : DataFrame) (deleted : list Z) (i : Z) (r : row) :
  i ∈ deleted → 0 ≤ i → df !! Z.to_nat i = Some r →
  id r ∈ deleted_ids df deleted.
Proof.
  intros Hi Hi0 Hr. apply elem_of_deleted_ids. exists i. split; [done|].
  by apply loc_id_position.
Qed.

(** C5. Take a batch whose statements all run, within the bounds of the
    model, and a delete position [i] of it that indexes the snapshot row
    [r]; the table may be any table, whatever its rows and their positions.
    The [DELETE] for [i] is handed the id of [r].  The commit goes through;
    afterwards no row has the id of [r]; an id of the table is gone only if
    it is the id of a deleted snapshot row; and when [i] is the whole batch
    the committed table is the table without the rows whose id is that of
    [r], in the same order. *)
Theorem delete_removes_by_id (conn : connection) (df : DataFrame) (b : Changes)
    (t : table) (i : Z) (r : row) :
  view conn = Some t →
  (∀ p, p ∈ edited_rows b → in_snapshot df p.1) →
  (∀ d, d ∈ added_rows b → no_id d) →
  (∀ j, j ∈ deleted_rows b → in_snapshot df j) →
  in_bounds df b t →
  i ∈ deleted_rows b →
  df !! Z.to_nat i = Some r →
  (∀ j, deleted_rows b !! j = Some i →
        delete_params df (deleted_rows b) !! j =
        Some (Ok (PlainDict {[ "id" := VInt (id r) ]}))) ∧
  ∃ t', on_click conn df b = (Ok tt, Conn (Some t') None) ∧
        (id r ∉ id <$> rows t') ∧
        (∀ k, k ∈ id <$> rows t → k ∉ deleted_ids df (deleted_rows b) →
              k ∈ id <$> rows t') ∧
        (∀ k, k ∈ id <$> rows t' → k ∉ deleted_ids df (deleted_rows b)) ∧
        (edited_rows b = [] → added_rows b = [] → deleted_rows b = [i] →
         rows t' = filter (λ r', id r' ≠ id r) (rows t)).
Proof.
  intros Hv Hedits Hadded Hdeleted _ Hi Hr.
  destruct (Hdeleted i Hi) as [Hi0 _].
  pose proof (deleted_ids_position df _ i r Hi Hi0 Hr) as Hdel. split.
  - intros j Hj. unfold delete_params. rewrite list_lookup_fmap, Hj. simpl.
    by rewrite (loc_id_position df i r).
  - destruct (merge_rows_in_snapshot df (edited_rows b) Hedits) as [dicts Hdicts].
    exists (committed df b dicts t). split_and!.
    + by apply on_click_commits.
    + unfold committed. cbn [rows].
      intros (r' & Heq & [Hkept _]%list_elem_of_filter)%list_elem_of_fmap.
      apply Hkept. by rewrite <-Heq.
    + intros k (r0 & -> & Hr0)%list_elem_of_fmap Hkept.
      unfold committed. cbn [rows]. apply list_elem_of_fmap.
      exists (foldl (λ r d, updated d r) r0 dicts).
      split; [by rewrite id_foldl_updated|]. apply list_elem_of_filter.
      split; [by rewrite id_foldl_updated|]. apply elem_of_app. left.
      rewrite updates_fmap. apply list_elem_of_fmap. by exists r0.
    + unfold committed. cbn [rows].
      by intros k (r' & -> & [Hkept _]%list_elem_of_filter)%list_elem_of_fmap.
    + intros He Ha Hd. rewrite He in Hdicts. injection Hdicts as <-.
      unfold committed. rewrite Ha, Hd. cbn [rows]. unfold inserted, updates.
      cbn [length foldl]. simpl. rewrite app_nil_r.
      apply list_filter_iff. intros r'. unfold deleted_ids. cbn [omap list_omap].
      rewrite (loc_id_position df i r) by done.
      rewrite not_elem_of_cons. split; [tauto|]. intros ?. split; [done|].
      apply not_elem_of_nil.
Qed.

(** Position 2 of a five-row snapshot, against a table that another writer
    has changed since: the row with id 5 is new and the row with id 20 is
    gone, so the snapshot's third row, the one with id 30, is the table's
    second. *)
Lemma delete_removes_by_id_witness :
  let mk k := Row k VNull VNull VNull VNull VNull in
  let df := [mk 10; mk 20; mk 30; mk 40; mk 50] in
  let live := Table [mk 5; mk 10; mk 30; mk 40; mk 50] 50 in
  let b := {| edited_rows := []; added_rows := []; deleted_rows := [2] |} in
  in_bounds df b live ∧
  df !! Z.to_nat 2 = Some (mk 30) ∧
  on_click (Conn (Some live) None) df b =
    (Ok tt, Conn (Some (Table [mk 5; mk 10; mk 40; mk 50] 50)) None).
Proof.
  intros mk df live b.
  assert (in_bounds df b live) as Hin.
  { apply (bool_decide_unpack _). vm_compute. exact I. }
  split; [exact Hin|]. split; [reflexivity|].
  destruct (delete_removes_by_id (Conn (Some live) None) df b live 2 (mk 30) eq_refl)
    as (_ & t' & Hrun & _ & _ & _ & Hrows).
  - intros p []%elem_of_nil.
  - intros d []%elem_of_nil.
  - intros j ->%list_elem_of_singleton. unfold in_snapshot. simpl. lia.
  - exact Hin.
  - left.
  - reflexivity.
  - rewrite Hrun. vm_compute in Hrun. by injection Hrun as <-.
Defined.

(** ** Positions that the snapshot lacks *)

(** C2, as stated, fails.  A delete position absent from the snapshot goes
    unreported when an insert fails first: the call raises the driver's
    [IntegrityError].  It goes unreported as well when the table is missing.
    And an edit at position -1, which indexes no snapshot row, raises
    nothing: pandas counts it from the end and the last row is updated. *)
Lemma stale_position_without_lookup_error :
  ¬ in_snapshot [azrai] 7 ∧
  (∃ conn', on_click (fresh_conn [azrai] 5) [azrai] stale_delete_after_failing_insert
            = (Raise IntegrityError, conn')) ∧
  is_LookupError IntegrityError = false ∧
  on_click (Conn None None) [azrai] stale_delete_only
    = (Raise OperationalError, Conn None None) ∧
  is_LookupError OperationalError = false ∧
  ¬ in_snapshot [azrai] (-1) ∧
  on_click (fresh_conn [azrai] 5) [azrai] edit_at_minus_one
    = (Ok tt, fresh_conn [Row 5 (VText "Azrai") (VInt 2501) (VInt 4) (VInt 1)
                            (VText "")] 5).
Proof.
  split_and!; try reflexivity.
  - unfold in_snapshot. simpl. lia.
  - eexists. reflexivity.
  - unfold in_snapshot. lia.
Qed.

(** The deletes stop at the first position outside the snapshot, with the
    rows of the positions before it deleted in the transaction. *)
Lemma deletes_block_stale (df : DataFrame) (b : Changes) (ds1 ds2 : list Z)
    (i : Z) (c : connection) (t : table) :
  deleted_rows b = ds1 ++ i :: ds2 →
  (∀ j, j ∈ ds1 → in_snapshot df j) →
  ¬ in_snapshot df i →
  view c = Some t →
  deletes_block df b c =
  (Raise (KeyError i),
   Conn (durable c)
     (Some (Some (Table (filter (λ r, id r ∉ deleted_ids df ds1) (rows t))
                    (sqlite_sequence t))))).
Proof.
  intros Hdel Hds1 Hi Hv. unfold deletes_block. rewrite Hdel.
  assert (truthy (ds1 ++ i :: ds2) = true) as -> by (by destruct ds1).
  apply (executemany_run _ _ _ t); [done|].
  unfold delete_params. rewrite fmap_app, fmap_cons.
  fold (delete_params df ds1). rewrite run_many_app.
  rewrite run_many_delete_present by done. cbn [run_many].
  by rewrite loc_id_out_of_range.
Qed.

(** C2, amended.  No exception of its own marks a stale position; what is
    raised is pandas' [IndexError] or [KeyError], and not always.  Let [n]
    be the number of snapshot rows.
    - An edit position at or beyond [n] makes the call raise [IndexError]
      before any statement is run: the connection is as it was.
    - A delete position [i] outside [0 ≤ i < n] makes the call raise
      [KeyError i] when the statements before it go through: the table
      exists, every edit position and every delete position before [i] is in
      the snapshot, no inserted record names an id, and the batch is within
      the bounds of the model.  The updates, the inserts and the deletes of
      the positions before [i] have then run in the transaction, which stays
      open and holds what the batch cut off before [i] would have committed;
      the file is unchanged.
    - When every edit and delete position is in the snapshot, the call
      raises no [LookupError].
    - [IndexError] and [KeyError] are [LookupError]s and no [LookupError] is
      a [sqlite3.Error]. *)
Theorem stale_position_raises_lookup_error (conn : connection) (df : DataFrame)
    (b : Changes) :
  ((∃ p, p ∈ edited_rows b ∧ Z.of_nat (length df) ≤ p.1) →
     on_click conn df b = (Raise IndexError, conn)) ∧
  (∀ t ds1 i ds2,
     view conn = Some t →
     (∀ p, p ∈ edited_rows b → in_snapshot df p.1) →
     (∀ d, d ∈ added_rows b → no_id d) →
     deleted_rows b = ds1 ++ i :: ds2 →
     (∀ j, j ∈ ds1 → in_snapshot df j) →
     ¬ in_snapshot df i →
     in_bounds df b t →
     ∃ dicts,
       merge_rows df (edited_rows b) = Ok dicts ∧
       on_click conn df b =
         (Raise (KeyError i),
          Conn (durable conn)
            (Some (Some (committed df {| edited_rows := edited_rows b;
                                         added_rows := added_rows b;
                                         deleted_rows := ds1 |} dicts t))))) ∧
  ((∀ p, p ∈ edited_rows b → in_snapshot df p.1) →
   (∀ i, i ∈ deleted_rows b → in_snapshot df i) →
     ∀ e conn', on_click conn df b = (Raise e, conn') →
                is_LookupError e = false) ∧
  (is_LookupError IndexError = true ∧
   (∀ i, is_LookupError (KeyError i) = true) ∧
   (∀ e, is_LookupError e = true → is_sqlite3_Error e = false)).
Proof.
  unfold on_click. split_and!.
  - intros (p & Hp & Hout). unfold update_data, bind, lift.
    rewrite (truthy_elem_of _ _ Hp).
    rewrite (merge_rows_out_of_range df _ p Hp); [done|]. lia.
  - intros t ds1 i ds2 Hv Hedits Hadded Hsplit Hds1 Hstale _.
    destruct (merge_rows_in_snapshot df (edited_rows b) Hedits) as [dicts Hdicts].
    exists dicts. split; [done|].
    destruct (edits_block_merged df b conn t dicts Hv Hdicts)
      as (c1 & Hrun1 & Hd1 & Hv1).
    destruct (inserts_block_auto b c1 _ Hv1 Hadded) as (c2 & Hrun2 & Hd2 & Hv2).
    rewrite update_data_unfold. unfold run_statements, bind.
    rewrite Hrun1, Hrun2.
    rewrite (deletes_block_stale df b ds1 ds2 i c2 _ Hsplit Hds1 Hstale Hv2).
    cbn [rows sqlite_sequence]. rewrite new_rowid_updates.
    unfold committed, next_sequence. cbn [rows sqlite_sequence added_rows
      deleted_rows]. rewrite new_rowid_updates. by rewrite Hd2, Hd1.
  - intros Hedits Hdeleted e conn' Hraise.
    assert (is_sqlite3_Error e = true) as He; [|by destruct e].
    rewrite update_data_unfold in Hraise.
    destruct (run_statements b df b conn) as [[[]|e'] c'] eqn:Hrun; [done|].
    injection Hraise as -> ->.
    unfold run_statements, bind in Hrun.
    destruct (edits_block b df b conn) as [[[]|e1] c1] eqn:Hrun1.
    + destruct (inserts_block b c1) as [[[]|e2] c2] eqn:Hrun2.
      * unfold deletes_block in Hrun. destruct (truthy (deleted_rows b)); [|done].
        eapply executemany_error;
          [apply sql_delete_error|by apply delete_params_present|done].
      * injection Hrun as -> ->. unfold inserts_block in Hrun2.
        destruct (truthy (added_rows b)); [|done].
        eapply executemany_error; [apply sql_insert_error| |done].
        unfold insert_params. apply Forall_fmap, Forall_true. by eexists.
    + injection Hrun as -> ->. unfold edits_block, bind, lift in Hrun1.
      destruct (truthy (edited_rows b)); [|done].
      destruct (merge_rows_in_snapshot df (edited_rows b) Hedits) as [rows Hrows].
      rewrite Hrows in Hrun1.
      eapply executemany_error; [apply sql_update_error| |done].
      apply Forall_fmap, Forall_true. by eexists.
  - done.
  - done.
  - by intros [].
Qed.

(** A stale edit, and a stale delete behind an edit, an insert and a
    delete that is not stale: the transaction is left with Azrai's tops
    edited, the new row inserted and Joe's row deleted, and the file
    untouched. *)
Lemma stale_position_raises_lookup_error_witness :
  let stale_edit := {| edited_rows := [(0, ∅); (3, {[ "total_tops" := VInt 1 ]})];
                       added_rows := []; deleted_rows := [0] |} in
  let stale_delete := {| edited_rows := [(0, {[ "total_tops" := VInt 4 ]})];
                         added_rows := [ {[ "contestant_name" := VText "New" ]} ];
                         deleted_rows := [1; 7; 0] |} in
  let conn := fresh_conn [azrai; joe] 7 in
  on_click conn [azrai; joe] stale_edit = (Raise IndexError, conn) ∧
  in_bounds [azrai; joe] stale_delete (Table [azrai; joe] 7) ∧
  on_click conn [azrai; joe] stale_delete =
    (Raise (KeyError 7),
     Conn (durable conn)
       (Some (Some (Table [Row 5 (VText "Azrai") (VInt 2501) (VInt 4) (VInt 1)
                             (VText "");
                           Row 8 (VText "New") VNull VNull VNull VNull] 8)))).
Proof.
  intros stale_edit stale_delete conn.
  pose proof (stale_position_raises_lookup_error conn [azrai; joe] stale_edit)
    as (Hedit & _).
  pose proof (stale_position_raises_lookup_error conn [azrai; joe] stale_delete)
    as (_ & Hdelete & _).
  assert (in_bounds [azrai; joe] stale_delete (Table [azrai; joe] 7)) as Hin.
  { apply (bool_decide_unpack _). vm_compute. exact I. }
  split; [|split; [exact Hin|]].
  - apply Hedit. exists (3, {[ "total_tops" := VInt 1 ]}). split.
    + right. left.
    + simpl. lia.
  - destruct (Hdelete (Table [azrai; joe] 7) [1] 7 [0] eq_refl)
      as (dicts & Hdicts & Hrun).
    + intros p ->%list_elem_of_singleton. unfold in_snapshot. simpl. lia.
    + intros d ->%list_elem_of_singleton. reflexivity.
    + reflexivity.
    + intros j ->%list_elem_of_singleton. unfold in_snapshot. simpl. lia.
    + unfold in_snapshot. simpl. lia.
    + exact Hin.
    + rewrite Hrun. vm_compute in Hdicts. injection Hdicts as <-.
      vm_compute. reflexivity.
Defined.

(** ** The round trip of a well-formed batch *)













(** * Further properties of the code *)

(** ** The commit button *)

(** X1. The commit button is disabled exactly when a click could run no
    statement: [has_uncommitted_changes] is false if and only if, on every
    connection and for every snapshot, the three blocks of [update_data]
    return without touching the connection. *)
Theorem button_disabled_iff_nothing_to_run (score_card : Changes) :
  commit_button_disabled score_card = true ↔
  ∀ conn df, run_statements score_card df score_card conn = (Ok tt, conn).
Proof.
  unfold commit_button_disabled, has_uncommitted_changes, run_statements,
    edits_block, inserts_block, deletes_block, bind.
  destruct score_card as [edits added deleted]. cbn [edited_rows added_rows
    deleted_rows existsb].
  split.
  - destruct edits, added, deleted; try discriminate. done.
  - intros H. destruct edits as [|[i delta] edits].
    + destruct added as [|d added].
      * destruct deleted as [|i deleted]; [done|].
        specialize (H (Conn None None) []). discriminate.
      * specialize (H (Conn None None) []). discriminate.
    + specialize (H (Conn None None) []). cbn [truthy] in H.
      unfold lift in H. cbn [merge_rows] in H.
      rewrite iloc_out_of_range in H by (unfold length; lia). discriminate.
Qed.

(** ** What the script loads *)

(** X6. After the connect-and-seed lines of the script, [load_data] fails
    in exactly one situation: the file existed and held no [score_card]
    table.  The script never creates the table in a file that exists. *)
Theorem load_after_bootstrap_fails_iff (fs : file_system) :
  load_data (bootstrap fs).2 = None ↔ fs = Some None.
Proof.
  destruct fs as [[t|]|].
  - rewrite bootstrap_existing_file. split; discriminate.
  - by rewrite bootstrap_existing_file.
  - split; [|discriminate]. vm_compute. discriminate.
Qed.

(** ** [initialize_data] on any connection *)



Lemma update_data_keeps_primary_key_witness :
  let batch := {| edited_rows := [(0, {[ "id" := VInt 7 ]})];
                  added_rows := [ {[ "id" := VInt 5 ]} ];
                  deleted_rows := [1] |} in
  let conn := fresh_conn [azrai; joe] 7 in
  primary_key conn ∧
  ∃ e conn', update_data batch conn [azrai; joe] batch = (Raise e, conn') ∧
             primary_key conn'.
Proof.
  intros batch conn.
  assert (primary_key conn) as Hpk.
  { intros t [= <-]. apply (bool_decide_unpack _). vm_compute. exact I. }
  split; [exact Hpk|]. eexists _, _. split; [vm_compute; reflexivity|].
  eapply (update_data_keeps_primary_key batch conn [azrai; joe] batch);
    [exact Hpk|vm_compute; reflexivity].
Defined.

(** ** Relating the table before and after a batch *)

Section table_relation.

(** A reflexive and transitive relation on tables that every statement of a
    batch respects is respected by the batch. *)
Context (R : table → table → Prop).
Hypothesis R_refl : ∀ t, R t t.
Hypothesis R_trans : ∀ t1 t2 t3, R t1 t2 → R t2 t3 → R t1 t3.

Lemma run_many_related stmt params t r t' :
  (∀ m, Ok m ∈ params → ∀ t t', stmt m t = Ok t' → R t t') →
  run_many stmt params t = (r, t') → R t t'.
Proof.
  revert t. induction params as [|[m|e] params IH]; intros t Hstep; simpl.
  - by intros [= _ <-].
  - destruct (stmt m t) as [t1|e1] eqn:E; [|by intros [= _ <-]].
    intros Hrun. eapply R_trans; [eapply Hstep; [left|done]|].
    apply IH; [|done]. intros m' Hm'. apply Hstep. by right.
  - by intros [= _ <-].
Qed.

Lemma executemany_related stmt params c t r c' :
  (∀ m, Ok m ∈ params → ∀ t t', stmt m t = Ok t' → R t t') →
  view c = Some t →
  executemany stmt params c = (r, c') →
  ∃ t', view c' = Some t' ∧ R t t'.
Proof.
  intros Hstep Hv. unfold executemany. rewrite Hv.
  destruct (run_many stmt params t) as [r' t'] eqn:E. intros [= _ <-].
  exists t'. split; [done|]. by eapply run_many_related.
Qed.

Lemma update_data_related ss conn df changes t r conn' :
  (∀ m t t', sql_update m t = Ok t' → R t t') →
  (∀ d, d ∈ added_rows changes →
        ∀ t t', sql_insert (DefaultDict d) t = Ok t' → R t t') →
  (∀ m t t', sql_delete m t = Ok t' → R t t') →
  view conn = Some t →
  update_data ss conn df changes = (r, conn') →
  ∃ t', view conn' = Some t' ∧ R t t'.
Proof.
  intros Hupd Hins Hdel Hv. rewrite update_data_unfold.
  assert (∃ c1 r1 t1, run_statements ss df changes conn = (r1, c1) ∧
                      view c1 = Some t1 ∧ R t t1) as (c1 & r1 & t1 & -> & Hv1 & HR).
  { unfold run_statements, bind.
    assert (∃ ca ra ta, edits_block ss df changes conn = (ra, ca) ∧
                        view ca = Some ta ∧ R t ta) as (ca & ra & ta & -> & Hva & HRa).
    { unfold edits_block, bind, lift. destruct (truthy (edited_rows changes));
        [|by eexists _, _, t].
      destruct (merge_rows df (edited_rows ss)) as [rows|e]; [|by eexists _, _, t].
      destruct (executemany sql_update ((λ d, Ok (PlainDict d)) <$> rows) conn)
        as [ra ca] eqn:E.
      eapply executemany_related in E as (ta & ? & ?); [by eexists _, _, ta| |done].
      intros m _. apply Hupd. }
    destruct ra as [[]|e]; [|by eexists _, _, ta].
    assert (∃ cb rb tb, inserts_block changes ca = (rb, cb) ∧
                        view cb = Some tb ∧ R ta tb) as (cb & rb & tb & -> & Hvb & HRb).
    { unfold inserts_block. destruct (truthy (added_rows changes));
        [|by eexists _, _, ta].
      destruct (executemany sql_insert (insert_params (added_rows changes)) ca)
        as [rb cb] eqn:E.
      eapply executemany_related in E as (tb & ? & ?); [by eexists _, _, tb| |done].
      intros m Hm. unfold insert_params in Hm.
      apply list_elem_of_fmap in Hm as (d & [= ->] & Hd). by apply Hins. }
    destruct rb as [[]|e]; [|eexists _, _, tb; eauto].
    unfold deletes_block. destruct (truthy (deleted_rows changes));
      [|eexists _, _, tb; eauto].
    destruct (executemany sql_delete (delete_params df (deleted_rows changes)) cb)
      as [rc cc] eqn:E.
    eapply executemany_related in E as (tc & ? & ?); [|intros m _; apply Hdel|done].
    eexists _, _, tc. eauto. }
  destruct r1 as [[]|e]; intros [= _ <-]; exists t1; [|done].
  split; [|done]. unfold commit. by rewrite Hv1.
Qed.

End table_relation.

(** ** Row order and the reuse of ids *)

Lemma sql_update_ids m t t' :
  sql_update m t = Ok t' →
  id <$> rows t' = id <$> rows t ∧ sqlite_sequence t' = sqlite_sequence t.
Proof.
  unfold sql_update. intros H.
  repeat (apply rbind_Ok in H as (? & _ & H)). injection H as <-. simpl.
  split; [|done]. rewrite <-list_fmap_compose.
  apply list_fmap_ext. intros j r _. simpl. by case_decide.
Qed.

Lemma sql_delete_rows m t t' :
  sql_delete m t = Ok t' →
  rows t' `sublist_of` rows t ∧ sqlite_sequence t' = sqlite_sequence t.
Proof.
  unfold sql_delete. intros H.
  repeat (apply rbind_Ok in H as (? & _ & H)). injection H as <-. simpl.
  split; [apply sublist_filter|done].
Qed.

Lemma StronglySorted_sublist {A} (R : relation A) (l1 l2 : list A) :
  l1 `sublist_of` l2 → StronglySorted R l2 → StronglySorted R l1.
Proof.
  induction 1 as [|x l1 l2 Hsub IH|x l1 l2 Hsub IH]; intros Hs.
  - constructor.
  - apply StronglySorted_inv in Hs as [Hs Hx]. constructor; [by apply IH|].
    rewrite Forall_forall in Hx |- *. intros y Hy. apply Hx.
    by eapply elem_of_sublist.
  - apply StronglySorted_inv in Hs as [Hs _]. by apply IH.
Qed.

Lemma insert_by_rowid_sorted (r : row) (rs : list row) :
  id r ∉ id <$> rs →
  StronglySorted Z.lt (id <$> rs) →
  StronglySorted Z.lt (id <$> insert_by_rowid r rs).
Proof.
  induction rs as [|r' rs IH]; intros Hfresh Hs; simpl.
  - repeat constructor.
  - rewrite fmap_cons in Hfresh, Hs. apply not_elem_of_cons in Hfresh as [Hne Hfresh].
    apply StronglySorted_inv in Hs as [Hs Hr'].
    case_decide as Hlt; rewrite !fmap_cons.
    + constructor; [by constructor|]. constructor; [done|].
      eapply Forall_impl; [exact Hr'|]. intros k Hk. simpl in Hk. lia.
    + constructor; [by apply IH|].
      rewrite Forall_forall in Hr' |- *. intros k Hk.
      apply list_elem_of_fmap in Hk as (r'' & -> & Hr'').
      rewrite insert_by_rowid_Permutation in Hr''.
      apply elem_of_cons in Hr'' as [->|Hr'']; [lia|].
      apply Hr'. by apply list_elem_of_fmap_2.
Qed.

Lemma insert_values_sorted idv name cid tops penalty descr t t' :
  insert_values idv name cid tops penalty descr t = Ok t' →
  rowid_order t → rowid_order t'.
Proof.
  unfold insert_values, rowid_order. cbv zeta.
  destruct (integer_affinity idv) as [|k| |]; [| |done..].
  - intros [= <-] Hs. simpl. apply insert_by_rowid_sorted; [|done].
    apply new_rowid_fresh.
  - case_decide as Hk; [done|]. intros [= <-] Hs. simpl.
    by apply insert_by_rowid_sorted.
Qed.

(** X3. The row order of the table survives every batch.  If the rows read
    through the connection are in strictly increasing id order before
    [update_data] is called, they are after it, whatever the batch and
    whether the call returned or raised; so the positions of a snapshot
    always list the rows by increasing id. *)
Theorem update_data_keeps_rowid_order ss conn df changes t r conn' :
  view conn = Some t →
  rowid_order t →
  update_data ss conn df changes = (r, conn') →
  ∃ t', view conn' = Some t' ∧ rowid_order t'.
Proof.
  intros Hv Hs Hrun.
  destruct (update_data_related (λ t t', rowid_order t → rowid_order t')
              (λ _ H, H) (λ _ _ _ H12 H23 H, H23 (H12 H))
              ss conn df changes t r conn')
    as (t' & Hv' & HR); [| | |done|done|by eauto].
  - intros m t1 t2 [Hids _]%sql_update_ids. unfold rowid_order. by rewrite Hids.
  - intros d _ t1 t2 H. unfold sql_insert in H.
    repeat (apply rbind_Ok in H as (? & _ & H)). by eapply insert_values_sorted.
  - intros m t1 t2 [Hsub _]%sql_delete_rows. unfold rowid_order.
    apply StronglySorted_sublist. by apply fmap_sublist.
Qed.

Lemma update_data_keeps_rowid_order_witness :
  let batch := {| edited_rows := [(1, {[ "total_tops" := VInt 2 ]})];
                  added_rows := [ {[ "id" := VInt 6 ]}; ∅ ];
                  deleted_rows := [0] |} in
  let conn := fresh_conn [azrai; joe] 7 in
  rowid_order (Table [azrai; joe] 7) ∧
  ∃ conn' t', update_data batch conn [azrai; joe] batch = (Ok tt, conn') ∧
              view conn' = Some t' ∧ id <$> rows t' = [6; 7; 8] ∧
              rowid_order t'.
Proof.
  intros batch conn.
  assert (rowid_order (Table [azrai; joe] 7)) as Hs.
  { unfold rowid_order. simpl. repeat constructor. }
  split; [exact Hs|].
  destruct (update_data_keeps_rowid_order batch conn [azrai; joe] batch
              (Table [azrai; joe] 7) (Ok tt)
              (update_data batch conn [azrai; joe] batch).2 eq_refl Hs)
    as (t' & Hv' & Hs'); [vm_compute; reflexivity|].
  eexists _, t'. split; [vm_compute; reflexivity|]. split; [exact Hv'|].
  split; [|exact Hs']. vm_compute in Hv'. by injection Hv' as <-.
Defined.

Lemma no_id_reused_refl t : ids_within_sequence t → no_id_reused t t.
Proof.
  intros Hinv. split; [done|]. split; [done|]. intros r Hr. left.
  by apply list_elem_of_fmap_2.
Qed.

Lemma no_id_reused_trans t1 t2 t3 :
  no_id_reused t1 t2 → no_id_reused t2 t3 → no_id_reused t1 t3.
Proof.
  intros (Hinv2 & Hle12 & Hrows12) (Hinv3 & Hle23 & Hrows23).
  split; [done|]. split; [lia|]. intros r Hr.
  destruct (Hrows23 r Hr) as [(r2 & -> & Hr2)%list_elem_of_fmap|Hnew].
  - by apply Hrows12.
  - right. lia.
Qed.

Lemma new_rowid_above_sequence (t : table) : sqlite_sequence t < new_rowid t.
Proof. unfold new_rowid. lia. Qed.

(** X4. Ids handed out by the table are never handed out again.  When
    every id in the table is bounded by the recorded sequence and no
    inserted record names an id, then after [update_data], whatever its
    outcome, the sequence has not gone down and still bounds every id, and
    every row has either an id the table held before or an id above every
    id it has ever held.  So the id of a deleted row is not given to a row
    inserted later. *)
Theorem update_data_never_reuses_ids ss conn df changes t r conn' :
  view conn = Some t →
  ids_within_sequence t →
  (∀ d, d ∈ added_rows changes → d !! "id" = None) →
  update_data ss conn df changes = (r, conn') →
  ∃ t', view conn' = Some t' ∧ no_id_reused t t' ∧
        ∀ k, k ≤ sqlite_sequence t → k ∉ id <$> rows t → k ∉ id <$> rows t'.
Proof.
  intros Hv Hinv Hnoid Hrun.
  destruct (update_data_related
              (λ t t', ids_within_sequence t → no_id_reused t t')
              no_id_reused_refl
              (λ t1 t2 t3 H12 H23 H,
                 no_id_reused_trans t1 t2 t3 (H12 H) (H23 (proj1 (H12 H))))
              ss conn df changes t r conn')
    as (t' & Hv' & HR); [| | |done|done|].
  - intros m t1 t2 [Hids Hseq]%sql_update_ids Hinv1. split_and!.
    + intros r2 Hr2. rewrite Hseq. apply (list_elem_of_fmap_2 id) in Hr2.
      rewrite Hids in Hr2. apply list_elem_of_fmap in Hr2 as (r1 & -> & Hr1).
      by apply Hinv1.
    + lia.
    + intros r2 Hr2. left. rewrite <-Hids. by apply list_elem_of_fmap_2.
  - intros d Hd t1 t2. rewrite sql_insert_auto by auto using no_id_absent.
    intros [= <-] Hinv1. pose proof (new_rowid_above_sequence t1).
    split_and!; simpl.
    + intros r2 [Hr2| ->%list_elem_of_singleton]%elem_of_app; simpl; [|done].
      apply new_rowid_above in Hr2. lia.
    + lia.
    + intros r2 [Hr2| ->%list_elem_of_singleton]%elem_of_app; simpl.
      * left. by apply list_elem_of_fmap_2.
      * by right.
  - intros m t1 t2 [Hsub Hseq]%sql_delete_rows Hinv1. split_and!.
    + intros r2 Hr2. rewrite Hseq. apply Hinv1. by eapply elem_of_sublist.
    + lia.
    + intros r2 Hr2. left. apply list_elem_of_fmap_2. by eapply elem_of_sublist.
  - exists t'. split; [done|]. specialize (HR Hinv). split; [done|].
    intros k Hk Hfresh (r' & -> & Hr')%list_elem_of_fmap.
    destruct HR as (_ & _ & Hrows). destruct (Hrows r' Hr'); [done|lia].
Qed.

(** Joe, the row with the largest id, is deleted and a record is inserted in
    the same batch: the new row gets id 8, not Joe's 7. *)
Lemma update_data_never_reuses_ids_witness :
  let batch := {| edited_rows := [];
                  added_rows := [ {[ "contestant_name" := VText "New" ]} ];
                  deleted_rows := [1] |} in
  let conn := fresh_conn [azrai; joe] 7 in
  ids_within_sequence (Table [azrai; joe] 7) ∧
  (∀ d, d ∈ added_rows batch → d !! "id" = None) ∧
  ∃ conn' t', update_data batch conn [azrai; joe] batch = (Ok tt, conn') ∧
              view conn' = Some t' ∧ id <$> rows t' = [5; 8] ∧
              7 ∉ id <$> rows t'.
Proof.
  intros batch conn.
  assert (ids_within_sequence (Table [azrai; joe] 7)) as Hinv.
  { intros r [->|[->|[]%elem_of_nil]%elem_of_cons]%elem_of_cons; simpl; lia. }
  assert (∀ d, d ∈ added_rows batch → d !! "id" = None) as Hnoid.
  { intros d ->%list_elem_of_singleton. reflexivity. }
  split; [exact Hinv|]. split; [exact Hnoid|].
  destruct (update_data_never_reuses_ids batch conn [azrai; joe] batch
              (Table [azrai; joe] 7) (Ok tt)
              (update_data batch conn [azrai; joe] batch).2 eq_refl Hinv Hnoid)
    as (t' & Hv' & _ & Hfresh); [vm_compute; reflexivity|].
  eexists _, t'. split; [vm_compute; reflexivity|]. split; [exact Hv'|].
  split.
  - vm_compute in Hv'. by injection Hv' as <-.
  - vm_compute in Hv'. injection Hv' as <-. simpl.
    intros [[=]|[[=]|[]%elem_of_nil]%elem_of_cons]%elem_of_cons.
Defined.

(** ** A snapshot that has gone stale *)




(** ** Committing the same batch twice *)

Lemma by_id_idempotent (F : row → row) (r : row) : by_id F → F (F r) = F r.
Proof.
  intros HF. destruct (HF r) as [Hid [Hsame|Hclass]].
  - by rewrite Hsame.
  - by apply Hclass.
Qed.

Lemma fmap_same (l : list row) : (λ r : row, r) <$> l = l.
Proof. apply list_eq. intros j. rewrite list_lookup_fmap. by destruct (l !! j). Qed.

(** What an [UPDATE] does depends on its parameters alone, and it acts on
    the rows id by id. *)
Lemma sql_update_by_id m t t1 :
  sql_update m t = Ok t1 →
  ∃ u, (∀ F, by_id F → by_id (λ r, F (u r))) ∧
       ∀ t2, sql_update m t2 = Ok (Table (u <$> rows t2) (sqlite_sequence t2)).
Proof.
  unfold sql_update. intros H.
  apply rbind_Ok in H as (name & -> & H). apply rbind_Ok in H as (cid & -> & H).
  apply rbind_Ok in H as (tops & -> & H). apply rbind_Ok in H as (pen & -> & H).
  apply rbind_Ok in H as (descr & -> & H). apply rbind_Ok in H as (idv & -> & _).
  exists (λ r, if decide (where_id idv r)
               then Row (id r) name (integer_affinity cid) (integer_affinity tops)
                      (integer_affinity pen) descr
               else r).
  split; [|done]. intros F HF r.
  destruct (decide (where_id idv r)) as [Hw|Hw].
  - destruct (HF (Row (id r) name (integer_affinity cid) (integer_affinity tops)
                    (integer_affinity pen) descr)) as [Hid _].
    split; [done|].
    right. intros r' Hr'. rewrite decide_True; [by rewrite Hr'|].
    apply where_id_affinity. apply where_id_affinity in Hw. congruence.
  - destruct (HF r) as [Hid [Hsame|Hclass]]; (split; [done|]); [by left|].
    right. intros r' Hr'. rewrite decide_False; [by apply Hclass|].
    rewrite where_id_affinity in Hw |- *. congruence.
Qed.

Lemma run_many_update_by_id params t t' :
  run_many sql_update params t = (Ok tt, t') →
  ∃ F, by_id F ∧
       ∀ t2, run_many sql_update params t2 =
             (Ok tt, Table (F <$> rows t2) (sqlite_sequence t2)).
Proof.
  revert t. induction params as [|[m|e] params IH]; intros t; cbn [run_many].
  - intros _. exists (λ r, r). split; [by split; [|left]|].
    intros [rs sq]. cbn [rows sqlite_sequence]. by rewrite fmap_same.
  - destruct (sql_update m t) as [t1|e1] eqn:E; [|done]. intros Hrun.
    destruct (sql_update_by_id m t t1 E) as (u & Hu & Hm).
    destruct (IH t1 Hrun) as (F & HF & Hrest).
    exists (λ r, F (u r)). split; [by apply Hu|]. intros t2.
    rewrite Hm, Hrest. cbn [rows sqlite_sequence].
    by rewrite <-list_fmap_compose.
  - done.
Qed.

(** What the [DELETE]s of a batch remove is a set of ids. *)
Lemma run_many_delete_by_id params t t' :
  run_many sql_delete params t = (Ok tt, t') →
  ∃ ks : list Z,
    ∀ t2, run_many sql_delete params t2 =
          (Ok tt, Table (filter (λ r, id r ∉ ks) (rows t2)) (sqlite_sequence t2)).
Proof.
  revert t. induction params as [|[m|e] params IH]; intros t; cbn [run_many].
  - intros _. exists []. intros [rs sq]. cbn [rows sqlite_sequence].
    rewrite filter_all; [done|]. intros r _. apply not_elem_of_nil.
  - destruct (sql_delete m t) as [t1|e1] eqn:E; [|done]. intros Hrun.
    destruct (IH t1 Hrun) as (ks & Hrest).
    unfold sql_delete in E. apply rbind_Ok in E as (idv & Hidv & _).
    exists (match integer_affinity idv with VInt k => k :: ks | _ => ks end).
    intros t2.
    unfold sql_delete. rewrite Hidv. cbn [rbind]. rewrite Hrest.
    cbn [rows sqlite_sequence]. do 2 f_equal.
    rewrite list_filter_filter. apply list_filter_iff. intros r.
    rewrite where_id_affinity.
    destruct (integer_affinity idv) as [|k| |]; rewrite ?not_elem_of_cons;
      [split; [tauto|done]| |split; [tauto|done]..].
    split; [intros [? Hne]; split; [|done]; congruence|].
    intros [Hne ?]. split; [done|]. congruence.
  - done.
Qed.

(** Updating by id and then deleting by id, done twice, is as done once. *)
Lemma update_delete_twice (F : row → row) (ks : list Z) (l : list row) :
  by_id F →
  filter (λ r, id r ∉ ks) (F <$> filter (λ r, id r ∉ ks) (F <$> l)) =
  filter (λ r, id r ∉ ks) (F <$> l).
Proof.
  intros HF. set (l1 := filter (λ r, id r ∉ ks) (F <$> l)).
  assert (F <$> l1 = l1) as ->.
  { rewrite <-(fmap_same l1) at 2. apply list_fmap_ext. intros j x Hx.
    apply list_elem_of_lookup_2 in Hx. unfold l1 in Hx.
    apply list_elem_of_filter in Hx as [_ (r & -> & _)%list_elem_of_fmap].
    by apply by_id_idempotent. }
  apply filter_all. intros x Hx. unfold l1 in Hx.
  by apply list_elem_of_filter in Hx as [? _].
Qed.

Lemma edits_block_by_id (df : DataFrame) (b : Changes) conn c1 :
  edits_block b df b conn = (Ok tt, c1) →
  ∃ F, by_id F ∧
       (view conn = None → c1 = conn ∧ ∀ c, edits_block b df b c = (Ok tt, c)) ∧
       ∀ c t2, view c = Some t2 →
         ∃ c', edits_block b df b c = (Ok tt, c') ∧
               view c' = Some (Table (F <$> rows t2) (sqlite_sequence t2)).
Proof.
  unfold edits_block, bind, lift. destruct (truthy (edited_rows b)).
  - destruct (merge_rows df (edited_rows b)) as [dicts|]; [|done].
    unfold executemany. destruct (view conn) as [t|]; [|done].
    destruct (run_many sql_update _ t) as [[[]|e] t1] eqn:Hrun; [|done].
    intros _. destruct (run_many_update_by_id _ _ _ Hrun) as (F & HF & Hall).
    exists F. split; [done|]. split; [done|]. intros c t2 ->.
    rewrite Hall. by eexists.
  - intros [= <-]. exists (λ r, r). split; [by split; [|left]|].
    split; [done|]. intros c [rs sq] Hc. exists c. split; [done|].
    cbn [rows sqlite_sequence]. by rewrite fmap_same.
Qed.

Lemma deletes_block_by_id (df : DataFrame) (b : Changes) conn c1 :
  deletes_block df b conn = (Ok tt, c1) →
  ∃ ks : list Z,
    (view conn = None → c1 = conn ∧ ∀ c, deletes_block df b c = (Ok tt, c)) ∧
    ∀ c t2, view c = Some t2 →
      ∃ c', deletes_block df b c = (Ok tt, c') ∧
            view c' = Some (Table (filter (λ r, id r ∉ ks) (rows t2))
                              (sqlite_sequence t2)).
Proof.
  unfold deletes_block. destruct (truthy (deleted_rows b)).
  - unfold executemany. destruct (view conn) as [t|]; [|done].
    destruct (run_many sql_delete _ t) as [[[]|e] t1] eqn:Hrun; [|done].
    intros _. destruct (run_many_delete_by_id _ _ _ Hrun) as (ks & Hall).
    exists ks. split; [done|]. intros c t2 ->. rewrite Hall. by eexists.
  - intros [= <-]. exists []. split; [done|]. intros c [rs sq] Hc. exists c.
    split; [done|]. cbn [rows sqlite_sequence].
    rewrite filter_all; [done|]. intros r _. apply not_elem_of_nil.
Qed.

(** X7. Committing a batch without inserts a second time changes nothing.
    If the commit of a batch of edits and deletes returned, committing the
    same batch against the same snapshot on the resulting connection returns
    as well and leaves the connection, and so the table, exactly as the
    first commit left it. *)
Theorem commit_without_inserts_twice (conn : connection) (df : DataFrame)
    (b : Changes) (conn' : connection) :
  added_rows b = [] →
  on_click conn df b = (Ok tt, conn') →
  on_click conn' df b = (Ok tt, conn').
Proof.
  intros Hadded. unfold on_click. rewrite !update_data_unfold.
  unfold run_statements, bind, inserts_block. rewrite Hadded. cbn [truthy].
  unfold ret.
  destruct (edits_block b df b conn) as [[[]|e1] c1] eqn:Hrun1; [|done].
  destruct (deletes_block df b c1) as [[[]|e2] c2] eqn:Hrun2; [|done].
  unfold commit. intros [= <-].
  destruct (edits_block_by_id df b conn c1 Hrun1) as (F & HF & HnoneE & HsomeE).
  destruct (deletes_block_by_id df b c1 c2 Hrun2) as (ks & HnoneD & HsomeD).
  destruct (view conn) as [t|] eqn:Hv.
  - destruct (HsomeE conn t Hv) as (c1' & Hc1' & Hv1).
    rewrite Hrun1 in Hc1'. injection Hc1' as <-.
    destruct (HsomeD c1 _ Hv1) as (c2' & Hc2' & Hv2).
    rewrite Hrun2 in Hc2'. injection Hc2' as <-.
    rewrite Hv2. cbn [rows sqlite_sequence] in *.
    set (T := Table _ _).
    destruct (HsomeE (Conn (Some T) None) T eq_refl) as (c3 & -> & Hv3).
    destruct (HsomeD c3 _ Hv3) as (c4 & -> & Hv4).
    rewrite Hv4. cbn [rows sqlite_sequence T]. do 4 f_equal.
    by apply update_delete_twice.
  - destruct (HnoneE eq_refl) as [-> HallE].
    destruct (HnoneD Hv) as [-> HallD].
    rewrite Hv. by rewrite HallE, HallD.
Qed.

(** An edit and a delete committed twice; with an insert in the batch the
    second commit would store the new row again. *)
Lemma commit_without_inserts_twice_witness :
  let batch := {| edited_rows := [(0, {[ "total_tops" := VInt 4 ]})];
                  added_rows := [];
                  deleted_rows := [1] |} in
  let conn := fresh_conn [azrai; joe] 7 in
  let conn' := fresh_conn [Row 5 (VText "Azrai") (VInt 2501) (VInt 4) (VInt 1)
                             (VText "")] 7 in
  added_rows batch = [] ∧
  on_click conn [azrai; joe] batch = (Ok tt, conn') ∧
  on_click conn' [azrai; joe] batch = (Ok tt, conn').
Proof.
  intros batch conn conn'.
  assert (on_click conn [azrai; joe] batch = (Ok tt, conn')) as Hrun
    by (vm_compute; reflexivity).
  split; [reflexivity|]. split; [exact Hrun|].
  exact (commit_without_inserts_twice conn [azrai; joe] batch conn' eq_refl Hrun).
Defined.

Example commit_with_insert_twice_stores_it_twice :
  let batch := {| edited_rows := []; added_rows := [ ∅ ]; deleted_rows := [] |} in
  ∃ conn' conn'' rs' rs'',
    on_click (fresh_conn [azrai] 5) [azrai] batch = (Ok tt, conn') ∧
    on_click conn' [azrai] batch = (Ok tt, conn'') ∧
    load_data conn' = Some rs' ∧ load_data conn'' = Some rs'' ∧
    length rs' = 2%nat ∧ length rs'' = 3%nat.
Proof. intros batch. eexists _, _, _, _. split_and!; vm_compute; reflexivity. Qed.

(** ** What a stale delete leaves behind *)

(** X12. The delete positions are resolved one at a time while the
    [DELETE]s run.  When the positions before the first one outside the
    snapshot are [ds1] and that position is [i], the deletes block raises
    [KeyError i] with the rows of [ds1] already deleted in the open
    transaction and none of the later positions looked at; the file is as it
    was. *)
Theorem deletes_stop_at_first_stale_position (df : DataFrame) (b : Changes)
    (ds1 ds2 : list Z) (i : Z) (c : connection) (t : table) :
  deleted_rows b = ds1 ++ i :: ds2 →
  (∀ j, j ∈ ds1 → in_snapshot df j) →
  ¬ in_snapshot df i →
  view c = Some t →
  deletes_block df b c =
  (Raise (KeyError i),
   Conn (durable c)
     (Some (Some (Table (filter (λ r, id r ∉ deleted_ids df ds1) (rows t))
                    (sqlite_sequence t))))).
Proof.
  intros Hdel Hds1 Hi Hv. unfold deletes_block. rewrite Hdel.
  assert (truthy (ds1 ++ i :: ds2) = true) as -> by (by destruct ds1).
  apply (executemany_run _ _ _ t); [done|].
  unfold delete_params. rewrite fmap_app, fmap_cons.
  fold (delete_params df ds1). rewrite run_many_app.
  rewrite run_many_delete_present by done. cbn [run_many].
  by rewrite loc_id_out_of_range.
Qed.

Lemma deletes_stop_at_first_stale_position_witness :
  let batch := {| edited_rows := []; added_rows := []; deleted_rows := [1; 9; 0] |} in
  let conn := fresh_conn [azrai; joe] 7 in
  deleted_rows batch = [1] ++ 9 :: [0] ∧
  ¬ in_snapshot [azrai; joe] 9 ∧
  deletes_block [azrai; joe] batch conn =
    (Raise (KeyError 9), Conn (durable conn) (Some (Some (Table [azrai] 7)))).
Proof.
  intros batch conn. split; [reflexivity|].
  assert (¬ in_snapshot [azrai; joe] 9) as Hout
    by (unfold in_snapshot; simpl; lia).
  split; [exact Hout|].
  rewrite (deletes_stop_at_first_stale_position [azrai; joe] batch [1] [0] 9 conn
             (Table [azrai; joe] 7) eq_refl); [reflexivity| |exact Hout|reflexivity].
  intros j ->%list_elem_of_singleton. unfold in_snapshot. simpl. lia.
Defined.

(** ** Edits in a row *)

Lemma default_union (x : value) (delta1 delta2 : dict) (f : string) :
  default (default x (delta1 !! f)) (delta2 !! f) =
  default x ((delta2 ∪ delta1) !! f).
Proof.
  rewrite lookup_union. by destruct (delta2 !! f), (delta1 !! f).
Qed.

Lemma overlay_overlay (r : row) (delta1 delta2 : dict) :
  overlay (overlay r delta1) delta2 = overlay r (delta2 ∪ delta1).
Proof. unfold overlay. cbn [id contestant_name contestant_id total_tops
  total_penalty description]. by rewrite !default_union. Qed.

(** X13. Two edits of a row committed one after the other, the second
    against the reloaded row, store what one edit with both partial records
    merged (the later one winning) stores.  Stated for the two [UPDATE]s: for
    partial records without [id] and any table, running the update of
    [delta1] on the row and then the update of [delta2] on the edited row
    gives the table that the update of [delta2 ∪ delta1] on the row gives. *)
Theorem successive_edits_merge (r : row) (delta1 delta2 : dict) (t t1 : table) :
  delta1 !! "id" = None → delta2 !! "id" = None →
  sql_update (PlainDict (delta1 ∪ to_dict r)) t = Ok t1 →
  sql_update (PlainDict (delta2 ∪ to_dict (overlay r delta1))) t1 =
  sql_update (PlainDict ((delta2 ∪ delta1) ∪ to_dict r)) t.
Proof.
  intros H1 H2. rewrite !sql_update_overlay;
    [|by rewrite lookup_union, H1, H2|done|done].
  intros [= <-]. cbn [rows sqlite_sequence id overlay]. do 2 f_equal.
  rewrite <-list_fmap_compose. apply list_fmap_ext. intros j r' _. simpl.
  destruct (decide (id r' = id r)) as [Heq|Hne].
  - rewrite decide_True by done. f_equal. apply overlay_overlay.
  - by rewrite decide_False.
Qed.

Lemma successive_edits_merge_witness :
  let delta1 : dict := {[ "total_tops" := VInt 4; "description" := VText "a" ]} in
  let delta2 : dict := {[ "total_tops" := VInt 6 ]} in
  let t := Table [azrai; joe] 7 in
  let azrai1 := Row 5 (VText "Azrai") (VInt 2501) (VInt 4) (VInt 1) (VText "a") in
  sql_update (PlainDict (delta1 ∪ to_dict azrai)) t = Ok (Table [azrai1; joe] 7) ∧
  sql_update (PlainDict (delta2 ∪ to_dict azrai1)) (Table [azrai1; joe] 7) =
    Ok (Table [Row 5 (VText "Azrai") (VInt 2501) (VInt 6) (VInt 1) (VText "a");
               joe] 7).
Proof.
  intros delta1 delta2 t azrai1.
  assert (sql_update (PlainDict (delta1 ∪ to_dict azrai)) t
          = Ok (Table [azrai1; joe] 7)) as H by reflexivity.
  split; [exact H|].
  change azrai1 with (overlay azrai delta1) at 1.
  rewrite (successive_edits_merge azrai delta1 delta2 t _ eq_refl eq_refl H).
  reflexivity.
Defined.

(** ** Counting rows *)







(** ** The tables the application can reach *)

Lemma StronglySorted_lt_NoDup (l : list Z) : StronglySorted Z.lt l → NoDup l.
Proof.
  induction 1 as [|x l _ IH Hx]; constructor; [|done].
  intros Hin. rewrite Forall_forall in Hx. specialize (Hx x Hin). lia.
Qed.

Lemma insert_values_within_sequence idv name cid tops penalty descr t t' :
  insert_values idv name cid tops penalty descr t = Ok t' →
  ids_within_sequence t → ids_within_sequence t'.
Proof.
  unfold insert_values, ids_within_sequence. cbv zeta.
  destruct (integer_affinity idv) as [|k| |]; [| |done..].
  - intros [= <-] Hinv r. cbn [rows sqlite_sequence].
    rewrite insert_by_rowid_Permutation. intros [->|Hr]%elem_of_cons; [done|].
    apply new_rowid_above in Hr. lia.
  - case_decide; [done|]. intros [= <-] Hinv r. cbn [rows sqlite_sequence].
    rewrite insert_by_rowid_Permutation. intros [->|Hr]%elem_of_cons; simpl; [lia|].
    apply Hinv in Hr. lia.
Qed.

Lemma update_data_keeps_well_kept ss conn df changes t r conn' :
  view conn = Some t → well_kept t →
  update_data ss conn df changes = (r, conn') →
  ∃ t', view conn' = Some t' ∧ well_kept t'.
Proof.
  intros Hv Hk Hrun.
  destruct (update_data_related (λ t t', well_kept t → well_kept t')
              (λ _ H, H) (λ _ _ _ H12 H23 H, H23 (H12 H))
              ss conn df changes t r conn')
    as (t' & Hv' & HR); [| | |done|done|by eauto].
  - intros m t1 t2 [Hids Hseq]%sql_update_ids [Hs Hinv]. split.
    + unfold rowid_order. by rewrite Hids.
    + intros r2 Hr2. rewrite Hseq. apply (list_elem_of_fmap_2 id) in Hr2.
      rewrite Hids in Hr2. apply list_elem_of_fmap in Hr2 as (r1 & -> & Hr1).
      by apply Hinv.
  - intros d _ t1 t2 H [Hs Hinv]. unfold sql_insert in H.
    repeat (apply rbind_Ok in H as (? & _ & H)).
    split; [by eapply insert_values_sorted|by eapply insert_values_within_sequence].
  - intros m t1 t2 [Hsub Hseq]%sql_delete_rows [Hs Hinv]. split.
    + unfold rowid_order. eapply StronglySorted_sublist; [|exact Hs].
      by apply fmap_sublist.
    + intros r2 Hr2. rewrite Hseq. apply Hinv. by eapply elem_of_sublist.
Qed.

Lemma update_data_Ok_committed ss conn df changes a conn' :
  update_data ss conn df changes = (Ok a, conn') → durable conn' = view conn'.
Proof.
  rewrite update_data_unfold.
  destruct (run_statements ss df changes conn) as [[[]|e] c1]; [|done].
  by intros [= _ <-].
Qed.

(** X15. Whatever the users do, the table stays sound.  On every connection
    the script can hold after starting without a database file (seeding,
    then any number of commits, successful or failed, with arbitrary
    snapshots and batches, and any number of new runs) both the table read
    through the connection and the table in the file exist, list their rows
    in strictly increasing id order, and have every id bounded by the
    recorded sequence.  So [load_data] never fails there and its snapshot
    has distinct ids. *)
Theorem reachable_tables_are_well_kept (conn : connection) :
  reachable conn →
  (∃ t, view conn = Some t ∧ well_kept t) ∧
  (∃ t, durable conn = Some t ∧ well_kept t) ∧
  ∃ df, load_data conn = Some df ∧ NoDup (id <$> df).
Proof.
  intros Hreach.
  assert ((∃ t, view conn = Some t ∧ well_kept t) ∧
          (∃ t, durable conn = Some t ∧ well_kept t)) as [Hview Hfile].
  { induction Hreach as [|ss conn df changes r conn' _ [[t [Hv Hk]] [td [Hd Hkd]]] Hrun
                         |conn _ [_ [td [Hd Hkd]]]].
    - assert (well_kept (Table (zip_with seed_record (seqZ 1 14)
                                  initial_participants) 14)) as Hk.
      { split.
        - apply (bool_decide_unpack _). vm_compute. exact I.
        - unfold ids_within_sequence. apply Forall_forall.
          apply (bool_decide_unpack _). vm_compute. exact I. }
      split; eexists; (split; [vm_compute; reflexivity|exact Hk]).
    - destruct (update_data_keeps_well_kept _ _ _ _ _ _ _ Hv Hk Hrun)
        as (t' & Hv' & Hk').
      split; [by exists t'|]. destruct r as [a|e].
      + apply update_data_Ok_committed in Hrun. exists t'. by rewrite Hrun.
      + apply update_data_raise_keeps_file in Hrun. exists td.
        by rewrite Hrun.
    - rewrite bootstrap_existing_file. split; by exists td. }
  split; [done|]. split; [done|].
  destruct Hview as (t & Hv & Hs & _). exists (pd_DataFrame (rows t)). split.
  - unfold load_data, select_all. by rewrite Hv.
  - rewrite ids_pd_DataFrame. by apply StronglySorted_lt_NoDup.
Qed.

(** The first run, a commit that fails, and the next run. *)
Lemma reachable_tables_are_well_kept_witness :
  let conn1 := (bootstrap None).2 in
  let conn2 := (on_click conn1 [] stale_delete_after_failing_insert).2 in
  let conn3 := (bootstrap (Some (durable conn2))).2 in
  reachable conn3 ∧
  ∃ df, load_data conn3 = Some df ∧ NoDup (id <$> df) ∧ length df = 14%nat.
Proof.
  intros conn1 conn2 conn3.
  assert (reachable conn3) as Hreach.
  { apply reachable_next_run.
    apply (reachable_commit stale_delete_after_failing_insert conn1 []
             stale_delete_after_failing_insert
             (on_click conn1 [] stale_delete_after_failing_insert).1).
    - apply reachable_first_run.
    - unfold conn2, on_click. by destruct (update_data _ _ _ _). }
  split; [exact Hreach|].
  destruct (reachable_tables_are_well_kept conn3 Hreach) as (_ & _ & df & Hload & Hnd).
  exists df. split; [exact Hload|]. split; [exact Hnd|].
  vm_compute in Hload. by injection Hload as <-.
Defined.

(** ** Inserts that name an id *)

Lemma sql_insert_explicit_id (d : dict) (k : Z) (t : table) :
  d !! "id" = Some (VInt k) →
  sql_insert (DefaultDict d) t =
  if decide (k ∈ id <$> rows t) then Raise IntegrityError
  else Ok (Table (insert_by_rowid (stored (inserted_row k d)) (rows t))
             (Z.max (sqlite_sequence t) k)).
Proof.
  intros Hid. unfold sql_insert. rewrite !param_DefaultDict, Hid.
  cbn [rbind default from_option Datatypes.id sqlite3_bind].
  unfold insert_values. cbn [integer_affinity]. done.
Qed.

(** X11. A commit whose batch is one inserted record that names an integer
    id [k], within the bounds of the model.  When a row of the table has that
    id, the call raises [IntegrityError] and leaves a transaction open in
    which the table is as it was.  When no row has it, the commit goes
    through: the record is stored under [k], at its place in id order, and
    the recorded sequence is raised to [k] if it was lower. *)
Theorem insert_with_explicit_id (conn : connection) (df : DataFrame)
    (t : table) (d : dict) (k : Z) :
  view conn = Some t →
  d !! "id" = Some (VInt k) →
  in_bounds df (single_insert d) t →
  (k ∈ id <$> rows t →
     on_click conn df (single_insert d) =
       (Raise IntegrityError, Conn (durable conn) (Some (Some t)))) ∧
  (k ∉ id <$> rows t →
     ∃ t', on_click conn df (single_insert d) = (Ok tt, Conn (Some t') None) ∧
           rows t' ≡ₚ stored (inserted_row k d) :: rows t ∧
           sqlite_sequence t' = Z.max (sqlite_sequence t) k ∧
           (rowid_order t → rowid_order t')).
Proof.
  intros Hv Hid _. unfold on_click. rewrite update_data_unfold.
  unfold run_statements, bind, edits_block, inserts_block, deletes_block,
    single_insert.
  cbn [edited_rows added_rows deleted_rows truthy ret].
  unfold executemany. rewrite Hv.
  cbn [insert_params fmap list_fmap run_many].
  rewrite (sql_insert_explicit_id d k t Hid). split.
  - intros Hk. by rewrite decide_True.
  - intros Hk. rewrite decide_False by done. cbn [run_many]. eexists.
    split; [reflexivity|]. cbn [rows sqlite_sequence]. split_and!.
    + apply insert_by_rowid_Permutation.
    + done.
    + unfold rowid_order. cbn [rows]. by apply insert_by_rowid_sorted.
Qed.

Lemma insert_with_explicit_id_witness :
  let d : dict := {[ "id" := VInt 6; "contestant_name" := VText "Six" ]} in
  let taken := Table [Row 6 VNull VNull VNull VNull VNull] 6 in
  d !! "id" = Some (VInt 6) ∧
  in_bounds [] (single_insert d) (Table [azrai; joe] 7) ∧
  in_bounds [] (single_insert d) taken ∧
  on_click (fresh_conn [azrai; joe] 7) [] (single_insert d) =
    (Ok tt,
     fresh_conn [azrai; Row 6 (VText "Six") VNull VNull VNull VNull; joe] 7) ∧
  on_click (Conn (Some taken) None) [] (single_insert d) =
    (Raise IntegrityError, Conn (Some taken) (Some (Some taken))).
Proof.
  intros d taken.
  assert (in_bounds [] (single_insert d) (Table [azrai; joe] 7)) as Hin1.
  { apply (bool_decide_unpack _). vm_compute. exact I. }
  assert (in_bounds [] (single_insert d) taken) as Hin2.
  { apply (bool_decide_unpack _). vm_compute. exact I. }
  split; [reflexivity|]. split; [exact Hin1|]. split; [exact Hin2|]. split.
  - destruct (proj2 (insert_with_explicit_id (fresh_conn [azrai; joe] 7) []
                       (Table [azrai; joe] 7) d 6 eq_refl eq_refl Hin1))
      as (t' & Hrun & _).
    + apply (bool_decide_unpack _). vm_compute. exact I.
    + rewrite Hrun. vm_compute in Hrun. by injection Hrun as <-.
  - apply (proj1 (insert_with_explicit_id (Conn (Some taken) None) [] taken d 6
                    eq_refl eq_refl Hin2)).
    simpl. left.
Defined.

(** ** When a commit succeeds and why it raises *)

(** X9. A commit goes through whenever the table exists, every edit
    position is one [iloc] accepts, every inserted record leaves the id to
    SQLite, every delete position is in the snapshot and the batch is within
    the bounds of the model: the call returns, the transaction is closed and
    the file holds the table that the statements, all run, leave.  Neither
    the primary key nor any relation between the snapshot and the live table
    is needed for that. *)
Theorem on_click_succeeds (conn : connection) (df : DataFrame) (b : Changes)
    (t : table) :
  view conn = Some t →
  (∀ p, p ∈ edited_rows b → in_iloc_range df p.1) →
  (∀ d, d ∈ added_rows b → no_id d) →
  (∀ i, i ∈ deleted_rows b → in_snapshot df i) →
  in_bounds df b t →
  ∃ dicts conn',
    merge_rows df (edited_rows b) = Ok dicts ∧
    on_click conn df b = (Ok tt, conn') ∧
    txn conn' = None ∧
    durable conn' = Some (committed df b dicts t).
Proof.
  intros Hv Hedits Hadded Hdeleted _.
  destruct (merge_rows_in_range df (edited_rows b) Hedits) as [dicts Hdicts].
  exists dicts. eexists. split; [done|].
  split; [by apply (on_click_commits conn df b t dicts)|]. done.
Qed.

Lemma on_click_succeeds_witness :
  let batch := {| edited_rows := [(-1, {[ "total_tops" := VInt 1 ]})];
                  added_rows := [ {[ "id" := VNull ]}; ∅ ];
                  deleted_rows := [0; 0] |} in
  let conn := fresh_conn [azrai; joe] 7 in
  in_bounds [azrai; joe] batch (Table [azrai; joe] 7) ∧
  ∃ conn', on_click conn [azrai; joe] batch = (Ok tt, conn') ∧
           durable conn' =
             Some (Table [Row 7 (VText "Joe") (VInt 2508) (VInt 1) (VInt 0)
                            (VText "");
                          Row 8 VNull VNull VNull VNull VNull;
                          Row 9 VNull VNull VNull VNull VNull] 9).
Proof.
  intros batch conn.
  assert (in_bounds [azrai; joe] batch (Table [azrai; joe] 7)) as Hin.
  { apply (bool_decide_unpack _). vm_compute. exact I. }
  split; [exact Hin|].
  destruct (on_click_succeeds conn [azrai; joe] batch (Table [azrai; joe] 7))
    as (dicts & conn' & _ & Hrun & _).
  - reflexivity.
  - intros p ->%list_elem_of_singleton. unfold in_iloc_range. simpl. lia.
  - intros d [->|[->|[]%elem_of_nil]%elem_of_cons]%elem_of_cons; reflexivity.
  - intros i [->|[->|[]%elem_of_nil]%elem_of_cons]%elem_of_cons;
      unfold in_snapshot; simpl; lia.
  - exact Hin.
  - exists conn'. split; [exact Hrun|].
    vm_compute in Hrun. by injection Hrun as <-.
Defined.

Lemma merge_rows_Raise (df : DataFrame) (deltas : list (Z * dict)) (e : exn) :
  merge_rows df deltas = Raise e →
  e = IndexError ∧ ∃ p, p ∈ deltas ∧ ¬ in_iloc_range df p.1.
Proof.
  induction deltas as [|[i delta] deltas IH]; [done|]. cbn [merge_rows].
  destruct (iloc df i) as [r|e'] eqn:Hi; cbn [rbind].
  - destruct (merge_rows df deltas) as [rows|e'']; [done|]. cbn [rbind].
    intros [= ->]. destruct IH as (-> & p & Hp & Hout); [done|].
    split; [done|]. exists p. split; [by right|done].
  - intros [= ->]. split; [by eapply iloc_error|].
    exists (i, delta). split; [left|]. intros Hin.
    destruct (iloc_in_range df i Hin) as [r Hr]. congruence.
Qed.

Lemma run_many_insert_Raise (added : list dict) (t : table) (e : exn) t' :
  run_many sql_insert (insert_params added) t = (Raise e, t') →
  e = IntegrityError ∧ ∃ d, d ∈ added ∧ ¬ no_id d.
Proof.
  revert t. induction added as [|d added IH]; intros t; [done|].
  cbn [insert_params fmap list_fmap run_many].
  destruct (decide (no_id d)) as [Hnull|Hid].
  - rewrite sql_insert_auto by done. intros Hrun.
    destruct (IH _ Hrun) as (-> & d' & Hd' & Hid'). split; [done|].
    exists d'. split; [by right|done].
  - destruct (sql_insert (DefaultDict d) t) as [t1|e1] eqn:E.
    + intros Hrun. destruct (IH _ Hrun) as (-> & d' & Hd' & Hid').
      split; [done|]. exists d'. split; [by right|done].
    + intros [= -> _]. split; [|exists d; split; [left|done]].
      unfold sql_insert in E. rewrite !param_DefaultDict in E. cbn [rbind] in E.
      unfold insert_values in E. cbv zeta in E. repeat case_match; congruence.
Qed.

Lemma run_many_delete_Raise (df : DataFrame) (deleted : list Z) (t : table)
    (e : exn) t' :
  run_many sql_delete (delete_params df deleted) t = (Raise e, t') →
  ∃ i, e = KeyError i ∧ i ∈ deleted ∧ ¬ in_snapshot df i.
Proof.
  revert t. induction deleted as [|i deleted IH]; intros t; [done|].
  cbn [delete_params fmap list_fmap run_many].
  destruct (loc_id df i) as [k|e'] eqn:Hi; cbn [rbind].
  - rewrite sql_delete_id. intros Hrun.
    destruct (IH _ Hrun) as (i' & -> & Hi' & Hout). exists i'.
    split; [done|]. split; [by right|done].
  - intros [= -> _]. exists i.
    assert (¬ in_snapshot df i) as Hout.
    { intros [Hi0 Hin]. destruct (lookup_lt_is_Some_2 df (Z.to_nat i)) as [r Hr];
        [lia|]. by rewrite (loc_id_position df i r) in Hi. }
    rewrite loc_id_out_of_range in Hi by done. injection Hi as <-.
    split; [done|]. split; [left|done].
Qed.

Lemma executemany_no_table stmt params c r c' :
  executemany stmt params c = (r, c') → view c' = None → view c = None.
Proof.
  unfold executemany. destruct (view c) as [t|]; [|done].
  destruct (run_many stmt params t) as [r' t']. by intros [= _ <-].
Qed.

Lemma executemany_Raise stmt params c e c' :
  executemany stmt params c = (Raise e, c') →
  (e = OperationalError ∧ view c = None) ∨
  ∃ t t', view c = Some t ∧ run_many stmt params t = (Raise e, t').
Proof.
  unfold executemany. destruct (view c) as [t|]; [|intros [= <- _]; by left].
  destruct (run_many stmt params t) as [r' t'] eqn:E. intros [= -> _].
  right. by exists t, t'.
Qed.

(** X8. Within the bounds of the model every exception of a commit has its
    cause in the input.  [IndexError] means an edit position that [iloc]
    rejects; [KeyError i] means that [i] is a delete position outside the
    snapshot; the driver's [IntegrityError] means an inserted record that
    names an id; its [OperationalError] means that the table does not exist;
    and no parameter is ever left unbound, so [ProgrammingError] is never
    raised. *)
Theorem on_click_raises_for_a_cause (conn : connection) (df : DataFrame)
    (b : Changes) (e : exn) (conn' : connection) :
  (∀ t, view conn = Some t → in_bounds df b t) →
  on_click conn df b = (Raise e, conn') → raised_because conn df b e.
Proof.
  intros _. unfold on_click. rewrite update_data_unfold.
  destruct (run_statements b df b conn) as [[[]|e'] c'] eqn:Hrun; [done|].
  intros [= -> _]. unfold run_statements, bind in Hrun.
  destruct (edits_block b df b conn) as [[[]|e1] c1] eqn:Hrun1.
  - assert (view c1 = None → view conn = None) as Hv1.
    { unfold edits_block, bind, lift in Hrun1.
      destruct (truthy (edited_rows b)); [|by injection Hrun1 as <-].
      destruct (merge_rows df (edited_rows b)); [|done].
      by eapply executemany_no_table. }
    destruct (inserts_block b c1) as [[[]|e2] c2] eqn:Hrun2.
    + assert (view c2 = None → view c1 = None) as Hv2.
      { unfold inserts_block in Hrun2.
        destruct (truthy (added_rows b)); [|by injection Hrun2 as <-].
        by eapply executemany_no_table. }
      unfold deletes_block in Hrun. destruct (truthy (deleted_rows b)); [|done].
      apply executemany_Raise in Hrun as [[-> Hv]|(t & t' & _ & Hrun)].
      * simpl. auto.
      * by apply run_many_delete_Raise in Hrun as (i & -> & ? & ?).
    + injection Hrun as -> _. unfold inserts_block in Hrun2.
      destruct (truthy (added_rows b)); [|done].
      apply executemany_Raise in Hrun2 as [[-> Hv]|(t & t' & _ & Hrun2)].
      * simpl. auto.
      * by apply run_many_insert_Raise in Hrun2 as (-> & ?).
  - injection Hrun as -> _. unfold edits_block, bind, lift in Hrun1.
    destruct (truthy (edited_rows b)); [|done].
    destruct (merge_rows df (edited_rows b)) as [rows|e1] eqn:Hrows.
    + apply executemany_Raise in Hrun1 as [[-> Hv]|(t & t' & _ & Hrun1)]; [done|].
      by rewrite (run_many_update_merged rows t (merge_rows_shape _ _ _ Hrows))
        in Hrun1.
    + injection Hrun1 as -> _. by apply merge_rows_Raise in Hrows as (-> & ?).
Qed.

Lemma on_click_raises_for_a_cause_witness :
  let batch := {| edited_rows := [(0, ∅)];
                  added_rows := [ ∅; {[ "id" := VInt 5 ]} ];
                  deleted_rows := [9] |} in
  ∃ conn', on_click (fresh_conn [azrai] 5) [azrai] batch
           = (Raise IntegrityError, conn') ∧
           ∃ d, d ∈ added_rows batch ∧ ¬ no_id d.
Proof.
  intros batch. eexists. split; [vm_compute; reflexivity|].
  eapply (on_click_raises_for_a_cause (fresh_conn [azrai] 5) [azrai] batch
            IntegrityError).
  - intros t [= <-]. apply (bool_decide_unpack _). vm_compute. exact I.
  - vm_compute. reflexivity.
Defined.
